(** * ZKNON coupon engine: the coupon ledger of [db.js] and [server.js]

    A shallow embedding of the JSON file store ([db.js]) and of the route
    handlers of [server.js], with the ledger properties proved over it.

    Modelling conventions.
    - The two files [coupons.json] and [events.json] are the two fields of
      [Store]; [loadCoupons]/[saveCoupons] and [loadEvents]/[saveEvents]
      read and write those fields (a file system whose reads and writes
      succeed).
    - A JavaScript number is an IEEE-754 binary64 double: amounts are
      primitive floats, added, subtracted, multiplied and compared as the
      processor does.  [JSON.stringify] writes a number that is not finite
      as [null], in the files and in the responses alike: a stored balance
      is an [option float], and [Number(x || 0)] reads [null] as 0.
    - The string arguments of a handler are the values it works with after
      [String(x || "").trim()]; the amount is the result of
      [Number(amount_sol)]; optional body fields are [option string] with
      [None] for an absent or [null] field.
    - [generateCouponId()] and [nowIso()] read the environment (random bytes,
      the clock): their results are arguments of the handlers.
    - [withdraw-onchain] first prepares the transfer (engine key,
      connection, recipient key, transaction), which may throw, and then
      awaits the Solana network: the handler is a [Prog] that either answers
      at once or hands a continuation to the pending transfer. *)

From Stdlib Require Import List String Bool ZArith QArith Lia Floats.
From Stdlib Require Strings.Byte Strings.Ascii.
Import ListNotations.

Open Scope string_scope.
Open Scope list_scope.
Open Scope float_scope.

(** ** Data model *)

Inductive EventType : Type :=
| create
| deposit
| withdraw
| pay.

Definition EventType_eqb (a b : EventType) : bool :=
  match a, b with
  | create, create | deposit, deposit | withdraw, withdraw | pay, pay => true
  | _, _ => false
  end.

(** [remaining_amount_sol] is [None] when the file holds [null]. *)
Record Coupon : Type := mkCoupon {
  id : string;
  label : string;
  owner_wallet : string;
  initial_amount_sol : float;
  remaining_amount_sol : option float;
  expires_at : option string;
  pool_address : string;
  created_at : string
}.

Record Event : Type := mkEvent {
  coupon_id : string;
  ev_owner_wallet : string;
  type : EventType;
  amount_sol : float;
  to_address : string;
  note : option string;
  tx_sig : option string;
  ev_created_at : string
}.

(** [coupons.json] and [events.json]. *)
Record Store : Type := mkStore {
  coupons : list Coupon;
  events : list Event
}.

(** Both files missing: [safeReadJSON] returns the fallback. *)
Definition empty_store : Store := {| coupons := []; events := [] |}.

(** ** JavaScript helpers *)

(** [a > b] on numbers. *)
Definition gt (a b : float) : bool := b <? a.

(** [!s] for a string. *)
Definition falsy (s : string) : bool := String.eqb s "".

(** [x || null] for an optional string field. *)
Definition or_null (x : option string) : option string :=
  match x with
  | Some s => if falsy s then None else Some s
  | None => None
  end.

(** A number as [JSON.stringify] writes it and [JSON.parse] reads it back:
    [null] for NaN and the infinities, 0 for -0, itself otherwise. *)
Definition json_number (x : float) : option float :=
  if is_finite x then Some (if is_zero x then 0 else x) else None.

(** [Number(x || 0)] for a stored number [x]: [null], 0, -0 and NaN give
    0. *)
Definition Number_or_zero (x : option float) : float :=
  match x with
  | Some v => if is_zero v || is_nan v then 0 else v
  | None => 0
  end.

(** [Math.round]: the integer nearest to a finite number, halves towards
    plus infinity, computed on the exact value of the double; [None] when
    the number is not finite ([Math.round] returns it as it is). *)
Definition Math_round (x : float) : option Z :=
  match Prim2SF x with
  | S754_zero _ => Some 0%Z
  | S754_finite s m e =>
      let n := if s then Zneg m else Zpos m in
      Some (if (0 <=? e)%Z then (n * 2 ^ e)%Z
            else ((2 * n + 2 ^ (- e)) / (2 * 2 ^ (- e)))%Z)
  | _ => None
  end.

Definition LAMPORTS_PER_SOL : float := 1000000000.

(** The rational number a finite double stands for (0 for NaN and the
    infinities); used to compare what the code stores with sums taken
    without rounding. *)
Definition exact (x : float) : Q :=
  match Prim2SF x with
  | S754_finite s m e =>
      let n := if s then Zneg m else Zpos m in
      if (0 <=? e)%Z then inject_Z (n * 2 ^ e)
      else Qmake n (Z.to_pos (2 ^ (- e)))
  | _ => 0%Q
  end.

(** [findIndex] of an array; [None] stands for [-1]. *)
Fixpoint findIndex {A : Type} (p : A -> bool) (l : list A) : option nat :=
  match l with
  | [] => None
  | x :: r => if p x then Some 0%nat else option_map S (findIndex p r)
  end.

(** [arr[idx] = x] for [idx] inside the array (the only use in [db.js]);
    outside it the list is returned as it is. *)
Fixpoint set_index {A : Type} (idx : nat) (x : A) (l : list A) : list A :=
  match l, idx with
  | [], _ => []
  | _ :: r, O => x :: r
  | y :: r, S i => y :: set_index i x r
  end.

(** ** [db.js] *)

Module Db.

Definition loadCoupons (s : Store) : list Coupon := coupons s.

Definition saveCoupons (s : Store) (cs : list Coupon) : Store :=
  {| coupons := cs; events := events s |}.

Definition loadEvents (s : Store) : list Event := events s.

Definition saveEvents (s : Store) (es : list Event) : Store :=
  {| coupons := coupons s; events := es |}.

Definition getCouponsByOwner (s : Store) (ownerWallet : string) : list Coupon :=
  filter (fun c => String.eqb (owner_wallet c) ownerWallet) (loadCoupons s).

(** [ownerWallet] is [None] when the argument is absent, [null] or
    [undefined]. *)
Definition owner_absent (ownerWallet : option string) : bool :=
  match ownerWallet with
  | None => true
  | Some w => falsy w
  end.

Definition owner_is (ownerWallet : option string) (c : Coupon) : bool :=
  match ownerWallet with
  | None => false
  | Some w => String.eqb (owner_wallet c) w
  end.

Definition getCouponById (s : Store) (cid : string) (ownerWallet : option string)
  : option Coupon :=
  find (fun c => String.eqb (id c) cid
                 && (owner_absent ownerWallet || owner_is ownerWallet c))
       (loadCoupons s).

Definition createCoupon (s : Store) (coupon : Coupon) : Store * Coupon :=
  (saveCoupons s (loadCoupons s ++ [coupon]), coupon).

Definition updateCoupon (s : Store) (cid ownerWallet : string)
           (mutator : Coupon -> Coupon) : Store * option Coupon :=
  let cs := loadCoupons s in
  match findIndex (fun c => String.eqb (id c) cid
                            && String.eqb (owner_wallet c) ownerWallet) cs with
  | None => (s, None)
  | Some idx =>
      match nth_error cs idx with
      | None => (s, None)
      | Some c0 =>
          let c := mutator c0 in
          (saveCoupons s (set_index idx c cs), Some c)
      end
  end.

Definition addEvent (s : Store) (event : Event) : Store * Event :=
  (saveEvents s (loadEvents s ++ [event]), event).

Definition getEventsForCoupon (s : Store) (couponId ownerWallet : string)
  : list Event :=
  filter (fun e => String.eqb (coupon_id e) couponId
                   && String.eqb (ev_owner_wallet e) ownerWallet)
         (loadEvents s).

End Db.

(** ** [server.js] *)

(** What the awaited Solana calls of [withdraw-onchain] give back: the
    signature once [confirmTransaction] has returned, or the message of the
    error with which [sendTransaction] or [confirmTransaction] rejects. *)
Inductive TransferResult : Type :=
| Confirmed (sig : string)
| Failed (message : string).

(** JSON bodies of the responses. *)
Inductive Body : Type :=
| BError (error : string)
| BErrorDetails (error details : string)
| BCreated (coupon : Coupon)
| BCouponEvent (coupon : option Coupon) (event : Event)
| BWithdrawn (coupon : option Coupon) (event : Event) (sig : string)
| BHistory (coupon : Coupon) (evs : list Event)
| BCoupons (wallet pool : string) (cs : list (Coupon * list Event)).

Record Response : Type := mkResponse {
  status : nat;
  body : Body
}.

(** A handler either answers, leaving a store behind, or awaits the transfer
    it has sent; the continuation runs on the store found when the transfer
    settles. *)
Inductive Prog : Type :=
| Respond (s : Store) (r : Response)
| AwaitTransfer (toAddress : string) (lamports : option Z)
                (k : TransferResult -> Store -> Store * Response).

(** A request, after the boundary conversions, with the values the handler
    draws from the environment: [newId], [now], and for [withdraw-onchain]
    [setup], the message of the error thrown, if one is, by
    [getEngineKeypair()], [getConnection()], [new PublicKey(toAddress)] or
    the building of the transaction, before anything is sent. *)
Inductive Request : Type :=
| GetCoupons (wallet : string)
| PostCoupons (wallet label : string) (amount : float)
              (expiry : option string) (newId now : string)
| PostDeposit (cid wallet : string) (amount : float)
              (sig : option string) (now : string)
| PostWithdrawOnchain (cid wallet : string) (amount : float)
                      (recipient : string) (setup : option string)
                      (now : string)
| PostPay (wallet cid : string) (amount : float) (merchant : string)
          (memo : option string) (now : string)
| GetHistory (cid wallet : string).

(** The argument is [Number(value)]. *)
Definition parseAmountSol (n : float) : option float :=
  if negb (is_finite n) || (n <=? 0) then None else Some n.

Definition set_remaining (c : Coupon) (v : option float) : Coupon :=
  {| id := id c;
     label := label c;
     owner_wallet := owner_wallet c;
     initial_amount_sol := initial_amount_sol c;
     remaining_amount_sol := v;
     expires_at := expires_at c;
     pool_address := pool_address c;
     created_at := created_at c |}.

Definition bad_request (msg : string) : Response :=
  {| status := 400; body := BError msg |}.

Definition not_found : Response :=
  {| status := 404; body := BError "coupon not found for this wallet" |}.

Definition ok (b : Body) : Response := {| status := 200; body := b |}.

(** The answer of the [catch] block of [withdraw-onchain]. *)
Definition withdraw_failed (message : string) : Response :=
  {| status := 500; body := BErrorDetails "on-chain withdraw failed" message |}.

Module Server.
Section Routes.

(** [process.env.POOL_ADDRESS || "8hGD..."]. *)
Variable POOL_ADDRESS : string.

(** [GET /coupons] *)
Definition get_coupons (s : Store) (wallet : string) : Store * Response :=
  if falsy wallet then (s, bad_request "wallet query param is required")
  else
    let cs := map (fun c => (c, Db.getEventsForCoupon s (id c) (owner_wallet c)))
                  (Db.getCouponsByOwner s wallet) in
    (s, ok (BCoupons wallet POOL_ADDRESS cs)).

(** [POST /coupons] *)
Definition post_coupons (s : Store) (ownerWallet couponLabel : string)
           (amount_sol : float) (expiry : option string)
           (newId createdAt : string) : Store * Response :=
  if falsy ownerWallet then (s, bad_request "wallet is required")
  else if falsy couponLabel then (s, bad_request "label is required")
  else match parseAmountSol amount_sol with
  | None => (s, bad_request "amount_sol must be a positive number")
  | Some amount =>
      let coupon :=
        {| id := newId;
           label := couponLabel;
           owner_wallet := ownerWallet;
           initial_amount_sol := amount;
           remaining_amount_sol := Some amount;
           expires_at := or_null expiry;
           pool_address := POOL_ADDRESS;
           created_at := createdAt |} in
      let (s1, _) := Db.createCoupon s coupon in
      let (s2, _) := Db.addEvent s1
        {| coupon_id := newId;
           ev_owner_wallet := ownerWallet;
           type := create;
           amount_sol := amount;
           to_address := ownerWallet;
           note := None;
           tx_sig := None;
           ev_created_at := createdAt |} in
      (s2, {| status := 201; body := BCreated coupon |})
  end.

(** [POST /coupons/:id/deposit] *)
Definition post_deposit (s : Store) (cid ownerWallet : string)
           (amount_sol : float) (sig : option string) (now : string)
  : Store * Response :=
  if falsy ownerWallet then (s, bad_request "wallet is required")
  else match parseAmountSol amount_sol with
  | None => (s, bad_request "amount_sol must be a positive number")
  | Some amount =>
      match Db.getCouponById s cid (Some ownerWallet) with
      | None => (s, not_found)
      | Some _ =>
          let (s1, updated) :=
            Db.updateCoupon s cid ownerWallet (fun c =>
              let current := Number_or_zero (remaining_amount_sol c) in
              set_remaining c (json_number (current + amount))) in
          let (s2, event) := Db.addEvent s1
            {| coupon_id := cid;
               ev_owner_wallet := ownerWallet;
               type := deposit;
               amount_sol := amount;
               to_address := ownerWallet;
               note := None;
               tx_sig := or_null sig;
               ev_created_at := now |} in
          (s2, ok (BCouponEvent updated event))
      end
  end.

(** [POST /coupons/:id/withdraw-onchain] *)
Definition post_withdraw_onchain (s : Store) (cid ownerWallet : string)
           (amount_sol : float) (toAddress : string) (setup : option string)
           (now : string) : Prog :=
  if falsy ownerWallet then Respond s (bad_request "wallet is required")
  else if falsy toAddress then Respond s (bad_request "recipient is required")
  else match parseAmountSol amount_sol with
  | None => Respond s (bad_request "amount_sol must be a positive number")
  | Some amount =>
      match Db.getCouponById s cid (Some ownerWallet) with
      | None => Respond s not_found
      | Some coupon =>
          let currentRemaining := Number_or_zero (remaining_amount_sol coupon) in
          if gt amount currentRemaining
          then Respond s (bad_request "insufficient coupon balance")
          else
            match setup with
            | Some message => Respond s (withdraw_failed message)
            | None =>
                AwaitTransfer toAddress (Math_round (amount * LAMPORTS_PER_SOL))
                  (fun outcome st =>
                     match outcome with
                     | Confirmed sig =>
                         let (s1, updated) :=
                           Db.updateCoupon st cid ownerWallet (fun c =>
                             set_remaining c
                               (json_number (currentRemaining - amount))) in
                         let (s2, event) := Db.addEvent s1
                           {| coupon_id := cid;
                              ev_owner_wallet := ownerWallet;
                              type := withdraw;
                              amount_sol := amount;
                              to_address := toAddress;
                              note := None;
                              tx_sig := Some sig;
                              ev_created_at := now |} in
                         (s2, ok (BWithdrawn updated event sig))
                     | Failed message => (st, withdraw_failed message)
                     end)
            end
      end
  end.

(** [POST /pay] *)
Definition post_pay (s : Store) (ownerWallet couponId : string)
           (amount_sol : float) (merchantWallet : string)
           (memo : option string) (now : string) : Store * Response :=
  if falsy ownerWallet then (s, bad_request "wallet is required")
  else if falsy couponId then (s, bad_request "coupon_id is required")
  else if falsy merchantWallet then (s, bad_request "merchant is required")
  else match parseAmountSol amount_sol with
  | None => (s, bad_request "amount_sol must be a positive number")
  | Some amount =>
      match Db.getCouponById s couponId (Some ownerWallet) with
      | None => (s, not_found)
      | Some coupon =>
          let currentRemaining := Number_or_zero (remaining_amount_sol coupon) in
          if gt amount currentRemaining
          then (s, bad_request "insufficient coupon balance")
          else
            let (s1, updated) :=
              Db.updateCoupon s couponId ownerWallet (fun c =>
                set_remaining c (json_number (currentRemaining - amount))) in
            let (s2, event) := Db.addEvent s1
              {| coupon_id := couponId;
                 ev_owner_wallet := ownerWallet;
                 type := pay;
                 amount_sol := amount;
                 to_address := merchantWallet;
                 note := or_null memo;
                 tx_sig := None;
                 ev_created_at := now |} in
            (s2, ok (BCouponEvent updated event))
      end
  end.

(** [GET /coupons/:id/history] *)
Definition get_history (s : Store) (cid wallet : string) : Store * Response :=
  if falsy wallet then (s, bad_request "wallet query param is required")
  else match Db.getCouponById s cid (Some wallet) with
  | None => (s, not_found)
  | Some coupon =>
      (s, ok (BHistory coupon (Db.getEventsForCoupon s cid wallet)))
  end.

Definition answer (r : Store * Response) : Prog := Respond (fst r) (snd r).

(** The router. *)
Definition handle (s : Store) (req : Request) : Prog :=
  match req with
  | GetCoupons wallet => answer (get_coupons s wallet)
  | PostCoupons wallet lbl amount expiry newId now =>
      answer (post_coupons s wallet lbl amount expiry newId now)
  | PostDeposit cid wallet amount sig now =>
      answer (post_deposit s cid wallet amount sig now)
  | PostWithdrawOnchain cid wallet amount recipient setup now =>
      post_withdraw_onchain s cid wallet amount recipient setup now
  | PostPay wallet cid amount merchant memo now =>
      answer (post_pay s wallet cid amount merchant memo now)
  | GetHistory cid wallet => answer (get_history s cid wallet)
  end.

(** One request served to its end with no other request in between: the
    transfer, when the handler reaches it, settles as [chain] says. *)
Definition serve (s : Store) (req : Request) (chain : TransferResult)
  : Store * Response :=
  match handle s req with
  | Respond s' r => (s', r)
  | AwaitTransfer _ _ k => k chain s
  end.

(** A sequence of requests served one after the other. *)
Fixpoint run (s : Store) (calls : list (Request * TransferResult)) : Store :=
  match calls with
  | [] => s
  | (req, chain) :: rest => run (fst (serve s req chain)) rest
  end.

End Routes.
End Server.

(** ** The ledger read off the two collections *)

Definition key_is (cid w : string) (c : Coupon) : bool :=
  String.eqb (id c) cid && String.eqb (owner_wallet c) w.

Definition ev_key_is (cid w : string) (e : Event) : bool :=
  String.eqb (coupon_id e) cid && String.eqb (ev_owner_wallet e) w.

(** The events of a coupon, as [GET /coupons] attaches them to it. *)
Definition events_of (s : Store) (c : Coupon) : list Event :=
  Db.getEventsForCoupon s (id c) (owner_wallet c).

Definition of_type (ty : EventType) (evs : list Event) : list Event :=
  filter (fun e => EventType_eqb (type e) ty) evs.

(** The amounts of a list of events, added up in binary64 from 0. *)
Definition total (evs : list Event) : float :=
  fold_left (fun acc e => acc + amount_sol e) evs 0.

(** initial + deposits - withdrawals - payments, each sum taken first, in
    binary64. *)
Definition ledger_balance (s : Store) (c : Coupon) : float :=
  initial_amount_sol c
  + total (of_type deposit (events_of s c))
  - total (of_type withdraw (events_of s c))
  - total (of_type pay (events_of s c)).

(** The same without rounding. *)
Definition exact_total (evs : list Event) : Q :=
  fold_right (fun e acc => (exact (amount_sol e) + acc)%Q) 0%Q evs.

Definition ledger_exact (s : Store) (c : Coupon) : Q :=
  (exact (initial_amount_sol c)
   + exact_total (of_type deposit (events_of s c))
   - exact_total (of_type withdraw (events_of s c))
   - exact_total (of_type pay (events_of s c)))%Q.

(** The amount of an event with the sign of its type. *)
Definition signed (e : Event) : float :=
  match type e with
  | create | deposit => amount_sol e
  | withdraw | pay => - amount_sol e
  end.

Definition signed_sum (evs : list Event) : float :=
  fold_left (fun acc e => acc + signed e) evs 0.

Definition signed_exact (evs : list Event) : Q :=
  fold_right (fun e acc => (exact (signed e) + acc)%Q) 0%Q evs.

(** What one event does to a stored balance, as the handler that records it
    computes it: the balance is read with [Number(x || 0)], the amount is
    added or subtracted in binary64, and the result is written as JSON.  A
    [create] event leaves the balance it was created with. *)
Definition apply_event (b : option float) (e : Event) : option float :=
  match type e with
  | create => b
  | deposit => json_number (Number_or_zero b + amount_sol e)
  | withdraw | pay => json_number (Number_or_zero b - amount_sol e)
  end.

(** The events of a coupon applied in their order to a first balance. *)
Definition replay (b : option float) (evs : list Event) : option float :=
  fold_left apply_event evs b.

(** The same with [create] events counted as additions. *)
Definition apply_signed (b : option float) (e : Event) : option float :=
  match type e with
  | create | deposit => json_number (Number_or_zero b + amount_sol e)
  | withdraw | pay => json_number (Number_or_zero b - amount_sol e)
  end.

Definition signed_replay (evs : list Event) : option float :=
  fold_left apply_signed evs (Some 0).

(** The identifier drawn by [generateCouponId()] is not the id of a coupon
    the same wallet already has.  Neither [generateCouponId] nor
    [createCoupon] checks this; every lookup goes by id and wallet, so two
    coupons of one wallet with one id would share their events. *)
Definition fresh_id (s : Store) (req : Request) : bool :=
  match req with
  | PostCoupons wallet _ _ _ newId _ => negb (existsb (key_is newId wallet) (coupons s))
  | _ => true
  end.

Fixpoint ids_fresh (pool : string) (s : Store)
         (calls : list (Request * TransferResult)) : bool :=
  match calls with
  | [] => true
  | (req, chain) :: rest =>
      fresh_id s req && ids_fresh pool (fst (Server.serve pool s req chain)) rest
  end.

(** ** What a served request does to the store *)

(** A request leaves the store as it is, adds one coupon with its [create]
    event, or appends one event under the key of a coupon and applies it to
    the balance of the first coupon of that key. *)
Inductive Effect (req : Request) (s s' : Store) : Prop :=
| eff_none :
    s' = s -> Effect req s s'
| eff_create (c : Coupon) (e : Event) lbl amt exp now :
    req = PostCoupons (owner_wallet c) lbl amt exp (id c) now ->
    s' = {| coupons := coupons s ++ [c]; events := events s ++ [e] |} ->
    remaining_amount_sol c = Some (initial_amount_sol c) ->
    is_finite (initial_amount_sol c) = true ->
    (0 <? initial_amount_sol c) = true ->
    coupon_id e = id c -> ev_owner_wallet e = owner_wallet c ->
    type e = create -> amount_sol e = initial_amount_sol c ->
    Effect req s s'
| eff_move (l1 l2 : list Coupon) (c : Coupon) (e : Event) :
    coupons s = l1 ++ c :: l2 ->
    s' = {| coupons := l1 ++ set_remaining c (apply_event (remaining_amount_sol c) e)
                          :: l2;
            events := events s ++ [e] |} ->
    coupon_id e = id c -> ev_owner_wallet e = owner_wallet c ->
    is_finite (amount_sol e) = true ->
    (0 <? amount_sol e) = true ->
    type e = deposit
    \/ ((type e = withdraw \/ type e = pay)
        /\ (Number_or_zero (remaining_amount_sol c) <? amount_sol e) = false) ->
    Effect req s s'.

(** ** Invariants of the store *)

(** A stored balance that is not negative: a number at least 0, or [null]. *)
Definition nonneg (c : Coupon) : Prop :=
  match remaining_amount_sol c with
  | Some v => (0 <=? v) = true
  | None => True
  end.

(** Keys are not shared, every event belongs to a stored coupon, the balance
    is the one the events give when applied in their order, and the events
    of a coupon begin with its only [create] event. *)
Record Inv (s : Store) : Prop := {
  inv_keys : NoDup (map (fun c => (id c, owner_wallet c)) (coupons s));
  inv_owned : forall e, In e (events s) ->
      exists c, In c (coupons s)
                /\ id c = coupon_id e /\ owner_wallet c = ev_owner_wallet e;
  inv_balance : forall c, In c (coupons s) ->
      remaining_amount_sol c
      = replay (Some (initial_amount_sol c)) (events_of s c);
  inv_history : forall c, In c (coupons s) ->
      is_finite (initial_amount_sol c) = true
      /\ (0 <? initial_amount_sol c) = true
      /\ exists e0 rest,
           events_of s c = e0 :: rest /\ type e0 = create
           /\ amount_sol e0 = initial_amount_sol c
           /\ Forall (fun e => type e <> create) rest
}.

(** ** Sessions used to exercise the statements *)

(** The address [server.js] falls back to when the environment sets none. *)
Definition DEFAULT_POOL_ADDRESS : string :=
  "8hGDXBJqpCZvWaDcbvXykRSb1bKbbJ5Ji4c85ubYvkaA".

Definition lunch : Request :=
  PostCoupons "W1" "Lunch" 2.5 None "CPN-A1B2-C3D4" "2024-01-01T10:00:00.000Z".

(** Create 2.5, deposit 1, pay 1 to M1, withdraw 1 (confirmed as SIG123),
    pay 5 (refused), withdraw 0.5 (transfer fails). *)
Definition session : list (Request * TransferResult) :=
  [ (lunch, Failed "");
    (PostDeposit "CPN-A1B2-C3D4" "W1" 1 (Some "DEP1") "2024-01-01T10:01:00.000Z",
     Failed "");
    (PostPay "W1" "CPN-A1B2-C3D4" 1 "M1" (Some "coffee") "2024-01-01T10:02:00.000Z",
     Failed "");
    (PostWithdrawOnchain "CPN-A1B2-C3D4" "W1" 1 "R1" None "2024-01-01T10:03:00.000Z",
     Confirmed "SIG123");
    (PostPay "W1" "CPN-A1B2-C3D4" 5 "M1" None "2024-01-01T10:04:00.000Z",
     Failed "");
    (PostWithdrawOnchain "CPN-A1B2-C3D4" "W1" 0.5 "R1" None "2024-01-01T10:05:00.000Z",
     Failed "blockhash not found") ].

Definition after_session : Store :=
  Server.run DEFAULT_POOL_ADDRESS empty_store session.

(** The coupon of [after_session]. *)
Definition lunch_coupon : Coupon :=
  mkCoupon "CPN-A1B2-C3D4" "Lunch" "W1" 2.5 (Some 1.5) None
           DEFAULT_POOL_ADDRESS "2024-01-01T10:00:00.000Z".

(** A coupon of 10^16 with two deposits of 1: each sum rounds back to
    10^16. *)
Definition rounding_session : list (Request * TransferResult) :=
  [ (PostCoupons "W1" "Vault" 1e16 None "CPN-0000-0001" "t0", Failed "");
    (PostDeposit "CPN-0000-0001" "W1" 1 None "t1", Failed "");
    (PostDeposit "CPN-0000-0001" "W1" 1 None "t2", Failed "") ].

(** The same id drawn twice for one wallet, then a deposit. *)
Definition clash_session : list (Request * TransferResult) :=
  [ (lunch, Failed ""); (lunch, Failed "");
    (PostDeposit "CPN-A1B2-C3D4" "W1" 1 None "t1", Failed "") ].

(** A coupon of 2^1023 with a deposit of 2^1023: the sum is beyond the
    largest double. *)
Definition overflow_session : list (Request * TransferResult) :=
  [ (PostCoupons "W1" "Vault" 0x1p1023 None "CPN-0000-0001" "t0", Failed "");
    (PostDeposit "CPN-0000-0001" "W1" 0x1p1023 None "t1", Failed "") ].

(** ** What a response discloses *)

(** What a response hands out: the coupons and the events in its body. *)
Definition coupons_in (r : Response) : list Coupon :=
  match body r with
  | BCreated c | BHistory c _ => [c]
  | BCouponEvent c _ | BWithdrawn c _ _ =>
      match c with Some c => [c] | None => [] end
  | BCoupons _ _ cs => map fst cs
  | BError _ | BErrorDetails _ _ => []
  end.

Definition events_in (r : Response) : list Event :=
  match body r with
  | BHistory _ evs => evs
  | BCouponEvent _ e | BWithdrawn _ e _ => [e]
  | BCoupons _ _ cs => List.concat (map snd cs)
  | BCreated _ | BError _ | BErrorDetails _ _ => []
  end.

(** The coupons a response shows together with their events. *)
Definition entries_in (r : Response) : list (Coupon * list Event) :=
  match body r with
  | BCoupons _ _ cs => cs
  | BHistory c evs => [(c, evs)]
  | _ => []
  end.

(** ** Requests that overlap a pending transfer *)

(** The server between two turns of the event loop: the store, and the
    continuations of the [withdraw-onchain] requests whose transfer has not
    settled yet.  The other handlers have no [await] and run in one turn;
    after its two awaits [withdraw-onchain] runs to its end in one turn. *)
Record Sys : Type := mkSys {
  store : Store;
  pending : list (TransferResult -> Store -> Store * Response)
}.

(** A turn: a request arrives and runs up to its answer or its [await], or
    the transfer of the [i]-th pending request settles. *)
Inductive Action : Type :=
| Arrive (req : Request)
| Settle (i : nat) (outcome : TransferResult).

Fixpoint drop_index {A : Type} (i : nat) (l : list A) : list A :=
  match l, i with
  | [], _ => []
  | _ :: r, O => r
  | x :: r, S j => x :: drop_index j r
  end.

Definition act (pool : string) (sys : Sys) (a : Action) : Sys :=
  match a with
  | Arrive req =>
      match Server.handle pool (store sys) req with
      | Respond s' _ => {| store := s'; pending := pending sys |}
      | AwaitTransfer _ _ k => {| store := store sys; pending := pending sys ++ [k] |}
      end
  | Settle i outcome =>
      match nth_error (pending sys) i with
      | Some k => {| store := fst (k outcome (store sys));
                     pending := drop_index i (pending sys) |}
      | None => sys
      end
  end.

Definition play (pool : string) (sys : Sys) (actions : list Action) : Sys :=
  fold_left (act pool) actions sys.

Definition boot : Sys := {| store := empty_store; pending := [] |}.

(** Every transfer settles before the next request arrives. *)
Definition serially (calls : list (Request * TransferResult)) : list Action :=
  flat_map (fun call => [Arrive (fst call); Settle 0 (snd call)]) calls.

(** A pay that is served while a withdrawal awaits its transfer. *)
Definition overlap_session : list Action :=
  [ Arrive (PostCoupons "W1" "Lunch" 1.5 None "CPN-A1B2-C3D4" "t0");
    Arrive (PostWithdrawOnchain "CPN-A1B2-C3D4" "W1" 1 "R1" None "t1");
    Arrive (PostPay "W1" "CPN-A1B2-C3D4" 1 "M1" None "t2");
    Settle 0 (Confirmed "SIG1") ].

(** ** Shapes of requests, coupons and events *)

Definition wallet_of (req : Request) : string :=
  match req with
  | GetCoupons w => w
  | PostCoupons w _ _ _ _ _ => w
  | PostDeposit _ w _ _ _ => w
  | PostWithdrawOnchain _ w _ _ _ _ => w
  | PostPay w _ _ _ _ _ => w
  | GetHistory _ w => w
  end.

(** The amount of a request that carries one. *)
Definition amount_of (req : Request) : option float :=
  match req with
  | PostCoupons _ _ a _ _ _ => Some a
  | PostDeposit _ _ a _ _ => Some a
  | PostWithdrawOnchain _ _ a _ _ _ => Some a
  | PostPay _ _ a _ _ _ => Some a
  | GetCoupons _ | GetHistory _ _ => None
  end.

(** A coupon with its balance blanked: the fields no handler assigns after
    the coupon was created. *)
Definition identity_of (c : Coupon) : Coupon := set_remaining c None.

Definition coupon_shape (pool : string) (c : Coupon) : Prop :=
  owner_wallet c <> "" /\ label c <> ""
  /\ (0 <? initial_amount_sol c) = true /\ is_finite (initial_amount_sol c) = true
  /\ pool_address c = pool /\ expires_at c <> Some "".

Definition event_shape (e : Event) : Prop :=
  (0 <? amount_sol e) = true /\ is_finite (amount_sol e) = true
  /\ ev_owner_wallet e <> "" /\
  match type e with
  | create => to_address e = ev_owner_wallet e /\ note e = None /\ tx_sig e = None
  | deposit => to_address e = ev_owner_wallet e /\ note e = None /\ tx_sig e <> Some ""
  | withdraw => to_address e <> "" /\ note e = None /\ exists sig, tx_sig e = Some sig
  | pay => to_address e <> "" /\ note e <> Some "" /\ tx_sig e = None
  end.

(** What serving a request of wallet [w] comes to: a refusal, a read, a new
    coupon with its [create] event, or one event under the key of a coupon,
    applied to the balance of the first coupon of that key. *)
Inductive Served (pool w : string) (s s' : Store) (r : Response) : Prop :=
| served_refused :
    s' = s ->
    (status r = 400 \/ status r = 404 \/ status r = 500)%nat ->
    coupons_in r = [] -> events_in r = [] ->
    Served pool w s s' r
| served_read :
    s' = s -> status r = 200%nat ->
    Served pool w s s' r
| served_created (c : Coupon) (e : Event) :
    s' = {| coupons := coupons s ++ [c]; events := events s ++ [e] |} ->
    r = {| status := 201; body := BCreated c |} ->
    owner_wallet c = w -> coupon_shape pool c ->
    remaining_amount_sol c = Some (initial_amount_sol c) ->
    coupon_id e = id c -> ev_owner_wallet e = w ->
    type e = create -> amount_sol e = initial_amount_sol c ->
    event_shape e ->
    Served pool w s s' r
| served_moved (l1 l2 : list Coupon) (c : Coupon) (e : Event) :
    coupons s = l1 ++ c :: l2 ->
    Forall (fun x => key_is (id c) (owner_wallet c) x = false) l1 ->
    s' = {| coupons := l1 ++ set_remaining c (apply_event (remaining_amount_sol c) e)
                          :: l2;
            events := events s ++ [e] |} ->
    status r = 200%nat ->
    coupons_in r = [set_remaining c (apply_event (remaining_amount_sol c) e)] ->
    events_in r = [e] ->
    owner_wallet c = w ->
    coupon_id e = id c -> ev_owner_wallet e = w ->
    type e <> create -> event_shape e ->
    Served pool w s s' r.

(** ** [generateCouponId] *)

(** One hexadecimal digit of [Buffer.toString("hex")], after
    [toUpperCase()]: the characters 0 to 9 (codes 48 to 57) and A to F
    (codes 65 to 70). *)
Definition hex_upper_digit (n : N) : Ascii.ascii :=
  Ascii.ascii_of_N (if (n <? 10)%N then (48 + n)%N else (55 + n)%N).

Definition hex_upper (b : Byte.byte) : string :=
  String (hex_upper_digit (Byte.to_N b / 16))
         (String (hex_upper_digit (Byte.to_N b mod 16)) "").

(** [part1] and [part2] are the two draws of [crypto.randomBytes(2)]. *)
Definition generateCouponId (part1 part2 : Byte.byte * Byte.byte) : string :=
  ("CPN-" ++ (hex_upper (fst part1) ++ hex_upper (snd part1))
   ++ "-" ++ (hex_upper (fst part2) ++ hex_upper (snd part2)))%string.

(** Reading the digits back, to tell identifiers apart. *)
Definition hex_value (c : Ascii.ascii) : N :=
  let n := Ascii.N_of_ascii c in
  if (n <? 65)%N then (n - 48)%N else (n - 55)%N.

Definition byte_of_digits (hi lo : Ascii.ascii) : option Byte.byte :=
  Byte.of_N (16 * hex_value hi + hex_value lo).

(** ** Signs of binary64 numbers *)

(** A specification float that is zero, positive or plus infinity. *)
Definition SFnonneg (x : spec_float) : bool :=
  match x with
  | S754_zero _ => true
  | S754_infinity s | S754_finite s _ _ => negb s
  | S754_nan => false
  end.

(** A specification float that is positive or plus infinity. *)
Definition SFpositive (x : spec_float) : bool :=
  match x with
  | S754_infinity s | S754_finite s _ _ => negb s
  | S754_zero _ | S754_nan => false
  end.

(** ** Proof automation *)

(** Reduce the writes of [db.js] to the store they leave. *)
Ltac store_norm :=
  simpl; unfold Db.addEvent, Db.saveEvents, Db.saveCoupons, Db.loadCoupons,
           Db.loadEvents; simpl.
(** * Binary64 facts the handlers rely on *)

Section Binary64.
Local Open Scope Z_scope.

Lemma shr_1_nonneg (mrs : shr_record) :
  0 <= shr_m mrs -> 0 <= shr_m (shr_1 mrs).
Proof.
  destruct mrs as [m r s]. simpl.
  destruct m as [|p|p]; [| destruct p | destruct p]; simpl; lia.
Qed.

Lemma iter_pos_keeps {A : Type} (P : A -> Prop) (f : A -> A) :
  (forall x, P x -> P (f x)) ->
  forall n x, P x -> P (iter_pos f n x).
Proof.
  intros Hf. induction n as [n IH|n IH|]; intros x Hx; simpl; auto.
Qed.

Lemma shr_nonneg (mrs : shr_record) (e n : Z) :
  0 <= shr_m mrs -> 0 <= shr_m (fst (shr mrs e n)).
Proof.
  intros H. unfold shr. destruct n; simpl; auto.
  apply (iter_pos_keeps (fun r => 0 <= shr_m r)); auto using shr_1_nonneg.
Qed.

Lemma shr_fexp_nonneg (m e : Z) (l : location) :
  0 <= m -> 0 <= shr_m (fst (shr_fexp prec emax m e l)).
Proof.
  intros H. unfold shr_fexp. apply shr_nonneg.
  destruct l as [|[]]; exact H.
Qed.

Lemma round_nearest_even_nonneg (m : Z) (l : location) :
  0 <= m -> 0 <= round_nearest_even m l.
Proof.
  intros H. destruct l as [|[]]; simpl; try lia.
  destruct (Z.even m); lia.
Qed.

(** Rounding keeps the sign: the result is a zero, or has the sign asked
    for; it is never NaN. *)
Lemma binary_round_aux_sign (sx : bool) (mx ex : Z) (lx : location) :
  0 <= mx ->
  SFnonneg (binary_round_aux prec emax sx mx ex lx) = negb sx
  \/ exists s, binary_round_aux prec emax sx mx ex lx = S754_zero s.
Proof.
  intros H. unfold binary_round_aux.
  pose proof (shr_fexp_nonneg mx ex lx H) as H1.
  destruct (shr_fexp prec emax mx ex lx) as [mrs' e'].
  simpl in H1.
  pose proof (shr_fexp_nonneg
                (round_nearest_even (shr_m mrs') (loc_of_shr_record mrs')) e' loc_Exact
                (round_nearest_even_nonneg _ _ H1)) as H2.
  destruct (shr_fexp prec emax _ e' loc_Exact) as [mrs'' e''].
  simpl in H2.
  destruct (shr_m mrs'') as [|p|p].
  - right. now exists sx.
  - left. now destruct (e'' <=? emax - prec).
  - lia.
Qed.

Lemma binary_round_sign (sx : bool) (mx : positive) (ex : Z) :
  SFnonneg (binary_round prec emax sx mx ex) = negb sx
  \/ exists s, binary_round prec emax sx mx ex = S754_zero s.
Proof.
  unfold binary_round.
  destruct (shl_align mx ex _) as [mz ez].
  apply binary_round_aux_sign. lia.
Qed.

Lemma binary_normalize_nonneg (m e : Z) :
  0 <= m -> SFnonneg (binary_normalize prec emax m e false) = true.
Proof.
  intros H. destruct m as [|p|p]; simpl; [reflexivity | | lia].
  destruct (binary_round_sign false p e) as [E | [s E]]; rewrite E; reflexivity.
Qed.

Lemma SFadd_nonneg (x y : spec_float) :
  SFnonneg x = true -> SFnonneg y = true ->
  SFnonneg (SFadd prec emax x y) = true.
Proof.
  destruct x as [sx|sx| |sx mx ex], y as [sy|sy| |sy my ey]; simpl;
    try discriminate; try destruct sx; try destruct sy; simpl;
    try discriminate; try reflexivity; intros _ _.
  match goal with
  | |- SFnonneg (binary_round _ _ false ?m ?e) = true =>
      destruct (binary_round_sign false m e) as [E | [s E]]; rewrite E; reflexivity
  end.
Qed.

Lemma digits2_pos_bounds (m : positive) :
  2 ^ (Zpos (digits2_pos m) - 1) <= Zpos m < 2 ^ Zpos (digits2_pos m).
Proof.
  induction m as [m IH|m IH|]; simpl digits2_pos.
  - rewrite Pos2Z.inj_succ.
    replace (Z.succ (Zpos (digits2_pos m)) - 1)
      with (Z.succ (Zpos (digits2_pos m) - 1)) by lia.
    rewrite !Z.pow_succ_r by lia. lia.
  - rewrite Pos2Z.inj_succ.
    replace (Z.succ (Zpos (digits2_pos m)) - 1)
      with (Z.succ (Zpos (digits2_pos m) - 1)) by lia.
    rewrite !Z.pow_succ_r by lia. lia.
  - simpl. lia.
Qed.

Lemma shl_align_value (mx : positive) (ex ex' : Z) :
  ex' <= ex ->
  Zpos (fst (shl_align mx ex ex')) = Zpos mx * 2 ^ (ex - ex').
Proof.
  intros H. unfold shl_align.
  destruct (ex' - ex) as [|d|d] eqn:E; simpl fst.
  - replace (ex - ex') with 0 by lia. simpl. lia.
  - lia.
  - replace (ex - ex') with (Zpos d) by lia.
    change (Pos.iter xO mx d) with (shift_pos d mx).
    rewrite shift_pos_correct. change (Zpower_pos 2 d) with (2 ^ Zpos d). lia.
Qed.

(** A valid binary64 mantissa has at most 53 digits, and exactly 53 above
    the least exponent. *)
Lemma bounded_digits (m : positive) (e : Z) :
  bounded prec emax m e = true ->
  Zpos (digits2_pos m) <= 53 /\ -1074 <= e
  /\ (-1074 < e -> Zpos (digits2_pos m) = 53).
Proof.
  unfold bounded, canonical_mantissa, fexp, SpecFloat.emin, prec, emax.
  intros H. apply andb_true_iff in H as [H _]. apply Z.eqb_eq in H.
  change (3 - 1024 - 53) with (-1074) in H. lia.
Qed.

(** Two valid positive numbers, the first not below the second: aligned on
    the smaller exponent, the first mantissa is not the smaller. *)
Lemma aligned_order (mx my : positive) (ex ey : Z) :
  bounded prec emax mx ex = true -> bounded prec emax my ey = true ->
  SFltb (S754_finite false mx ex) (S754_finite false my ey) = false ->
  Zpos (fst (shl_align my ey (Z.min ex ey)))
  <= Zpos (fst (shl_align mx ex (Z.min ex ey))).
Proof.
  intros Hx Hy Hlt.
  apply bounded_digits in Hx as (Hdx & Hex & Hnx).
  apply bounded_digits in Hy as (Hdy & Hey & Hny).
  unfold SFltb, SFcompare in Hlt.
  rewrite !shl_align_value by lia.
  destruct (Z.compare_spec ex ey) as [E | E | E].
  - subst ey. rewrite Z.min_id, Z.sub_diag. simpl Z.pow.
    rewrite Pos.compare_cont_spec in Hlt. simpl in Hlt.
    destruct (Pos.compare_spec mx my) as [E' | E' | E']; try discriminate; lia.
  - discriminate.
  - rewrite Z.min_r by lia. rewrite Z.sub_diag. simpl (2 ^ 0).
    pose proof (digits2_pos_bounds mx) as [Hlo _].
    pose proof (digits2_pos_bounds my) as [_ Hhi].
    rewrite (Hnx ltac:(lia)) in Hlo.
    change (2 ^ (53 - 1)) with 4503599627370496 in Hlo.
    assert (2 ^ Zpos (digits2_pos my) <= 2 ^ 53) as Hp
        by (apply Z.pow_le_mono_r; lia).
    change (2 ^ 53) with 9007199254740992 in Hp.
    assert (2 ^ 1 <= 2 ^ (ex - ey)) as Hq by (apply Z.pow_le_mono_r; lia).
    change (2 ^ 1) with 2 in Hq. nia.
Qed.

Lemma SFsub_nonneg (x y : spec_float) :
  valid_binary x = true -> valid_binary y = true ->
  x <> S754_nan ->
  SFpositive y = true -> y <> S754_infinity false ->
  SFltb x y = false ->
  SFnonneg (SFsub prec emax x y) = true.
Proof.
  intros Hvx Hvy Hnan Hpos Hfin Hlt.
  destruct y as [sy|sy| |sy my ey]; try discriminate Hpos;
    destruct sy; try discriminate Hpos; try congruence.
  destruct x as [sx|sx| |sx mx ex]; try congruence;
    try destruct sx; try discriminate Hlt; try reflexivity.
  simpl in Hvx, Hvy.
  pose proof (aligned_order mx my ex ey Hvx Hvy Hlt) as Hord.
  cbv beta iota delta [SFsub cond_Zopp].
  apply binary_normalize_nonneg. lia.
Qed.

(** Comparing the other way round gives the opposite answer. *)
Lemma SFcompare_antisym (x y : spec_float) :
  SFcompare y x = option_map CompOpp (SFcompare x y).
Proof.
  destruct x as [sx|sx| |sx mx ex], y as [sy|sy| |sy my ey];
    try destruct sx; try destruct sy; try reflexivity; simpl;
    rewrite (Z.compare_antisym ex ey);
    destruct (ex ?= ey); simpl; try reflexivity;
    rewrite (Pos.compare_cont_antisym mx my Eq); simpl;
    now destruct (Pos.compare_cont Eq mx my).
Qed.

End Binary64.

Lemma leb_zero_spec (x : float) : (0 <=? x) = SFnonneg (Prim2SF x).
Proof.
  rewrite leb_spec. change (Prim2SF 0) with (S754_zero false).
  destruct (Prim2SF x) as [s|s| |s m e]; try destruct s; reflexivity.
Qed.

Lemma ltb_zero_spec (x : float) : (0 <? x) = SFpositive (Prim2SF x).
Proof.
  rewrite ltb_spec. change (Prim2SF 0) with (S754_zero false).
  destruct (Prim2SF x) as [s|s| |s m e]; try destruct s; reflexivity.
Qed.

Lemma is_zero_spec (x : float) :
  is_zero x = match Prim2SF x with S754_zero _ => true | _ => false end.
Proof.
  unfold is_zero. rewrite eqb_spec. change (Prim2SF zero) with (S754_zero false).
  destruct (Prim2SF x) as [s|s| |s m e]; try destruct s; reflexivity.
Qed.

Lemma is_nan_spec (x : float) :
  is_nan x = match Prim2SF x with S754_nan => true | _ => false end.
Proof.
  unfold is_nan. rewrite eqb_spec. unfold SFeqb.
  destruct (Prim2SF x) as [s|s| |s m e]; try destruct s; simpl; try reflexivity;
    now rewrite Z.compare_refl, Pos.compare_cont_refl.
Qed.

Lemma is_infinity_spec (x : float) :
  is_infinity x = match Prim2SF x with S754_infinity _ => true | _ => false end.
Proof.
  unfold is_infinity. rewrite eqb_spec, abs_spec.
  change (Prim2SF infinity) with (S754_infinity false).
  destruct (Prim2SF x) as [s|s| |s m e]; reflexivity.
Qed.

(** A positive number is at least 0, is not a zero and is not NaN. *)
Lemma positive_facts (x : float) :
  (0 <? x) = true ->
  (0 <=? x) = true /\ is_zero x = false /\ is_nan x = false
  /\ (x <=? 0) = false.
Proof.
  rewrite ltb_zero_spec, leb_zero_spec, is_zero_spec, is_nan_spec, leb_spec.
  change (Prim2SF 0) with (S754_zero false).
  destruct (Prim2SF x) as [s|s| |s m e]; try destruct s; simpl; auto; discriminate.
Qed.

(** What is neither NaN nor at most 0 is positive. *)
Lemma not_le_zero_positive (x : float) :
  is_nan x = false -> (x <=? 0) = false -> (0 <? x) = true.
Proof.
  rewrite ltb_zero_spec, is_nan_spec, leb_spec.
  change (Prim2SF 0) with (S754_zero false).
  destruct (Prim2SF x) as [s|s| |s m e]; try destruct s; simpl; auto; discriminate.
Qed.

Lemma finite_facts (x : float) :
  is_finite x = true -> is_nan x = false /\ is_infinity x = false.
Proof.
  unfold is_finite. rewrite negb_true_iff, orb_false_iff. tauto.
Qed.

(** The sum of two numbers that are at least 0 is at least 0. *)
Lemma add_nonneg (x y : float) :
  (0 <=? x) = true -> (0 <=? y) = true -> (0 <=? x + y) = true.
Proof.
  rewrite !leb_zero_spec, add_spec. apply SFadd_nonneg.
Qed.

(** Subtracting a positive finite number from one that is not below it
    leaves at least 0. *)
Lemma sub_nonneg (x y : float) :
  is_nan x = false -> is_finite y = true ->
  (0 <? y) = true -> (x <? y) = false ->
  (0 <=? x - y) = true.
Proof.
  intros Hnan Hfin Hpos Hlt.
  apply finite_facts in Hfin as [_ Hinf].
  rewrite leb_zero_spec, sub_spec.
  rewrite ltb_zero_spec in Hpos. rewrite ltb_spec in Hlt.
  rewrite is_nan_spec in Hnan. rewrite is_infinity_spec in Hinf.
  apply SFsub_nonneg; auto using Prim2SF_valid.
  - intros E. rewrite E in Hnan. discriminate.
  - intros E. rewrite E in Hinf. discriminate.
Qed.

(** Adding a number other than a zero to 0 gives the number. *)
Lemma zero_add (x : float) : is_zero x = false -> 0 + x = x.
Proof.
  rewrite is_zero_spec. intros H. apply Prim2SF_inj.
  rewrite add_spec. change (Prim2SF 0) with (S754_zero false).
  destruct (Prim2SF x) as [s|s| |s m e]; try discriminate; reflexivity.
Qed.

(** A positive amount that is not above a balance: the balance is positive
    and is not below the amount. *)
Lemma le_balance_facts (a r : float) :
  (0 <? a) = true -> (a <=? r) = true ->
  (0 <? r) = true /\ (r <? a) = false.
Proof.
  rewrite !ltb_zero_spec, leb_spec, ltb_spec.
  unfold SFleb, SFltb. rewrite (SFcompare_antisym (Prim2SF a) (Prim2SF r)).
  destruct (Prim2SF a) as [sa|sa| |sa ma ea]; try destruct sa; try discriminate;
    destruct (Prim2SF r) as [sr|sr| |sr mr er]; try destruct sr;
    try discriminate; simpl; auto;
    destruct (ea ?= er)%Z; simpl; auto; try discriminate;
    destruct (Pos.compare_cont Eq ma mr); simpl; auto; discriminate.
Qed.

(** ** Numbers as the handlers read and write them *)

Lemma Number_or_zero_not_nan (b : option float) :
  is_nan (Number_or_zero b) = false.
Proof.
  destruct b as [v|]; simpl; [|reflexivity].
  destruct (is_zero v) eqn:Hz; simpl; [reflexivity|].
  destruct (is_nan v) eqn:Hn; [reflexivity | exact Hn].
Qed.

Lemma Number_or_zero_nonneg (b : option float) :
  match b with Some v => (0 <=? v) = true | None => True end ->
  (0 <=? Number_or_zero b) = true.
Proof.
  destruct b as [v|]; simpl; [|reflexivity].
  intros H. now destruct (is_zero v || is_nan v).
Qed.

Lemma Number_or_zero_positive (r : float) :
  (0 <? r) = true -> Number_or_zero (Some r) = r.
Proof.
  intros H. apply positive_facts in H as (_ & Hz & Hn & _).
  simpl. now rewrite Hz, Hn.
Qed.

Lemma json_number_nonneg (x : float) :
  (0 <=? x) = true ->
  match json_number x with Some v => (0 <=? v) = true | None => True end.
Proof.
  intros H. unfold json_number. destruct (is_finite x); [|exact I].
  now destruct (is_zero x).
Qed.

Lemma json_number_positive (x : float) :
  is_finite x = true -> (0 <? x) = true -> json_number x = Some x.
Proof.
  intros Hf H. apply positive_facts in H as (_ & Hz & _).
  unfold json_number. now rewrite Hf, Hz.
Qed.

Lemma parseAmountSol_pos (n a : float) :
  parseAmountSol n = Some a ->
  n = a /\ is_finite a = true /\ (0 <? a) = true.
Proof.
  unfold parseAmountSol.
  destruct (is_finite n) eqn:Hf; simpl; [|discriminate].
  destruct (n <=? 0) eqn:Hle; [discriminate|].
  intros H. injection H as <-. repeat split; auto.
  apply not_le_zero_positive; [|exact Hle]. now apply finite_facts in Hf.
Qed.

Lemma parseAmountSol_finite (a : float) :
  is_finite a = true -> (0 <? a) = true -> parseAmountSol a = Some a.
Proof.
  intros Hf H. apply positive_facts in H as (_ & _ & _ & Hle).
  unfold parseAmountSol. now rewrite Hf, Hle.
Qed.

Lemma parseAmountSol_none (n : float) :
  is_finite n = false \/ (n <=? 0) = true -> parseAmountSol n = None.
Proof.
  unfold parseAmountSol. intros [-> | ->]; [reflexivity|].
  now rewrite orb_true_r.
Qed.

(** The check of [pay] and [withdraw-onchain] on a balance below the
    amount. *)
Lemma gt_balance (a : float) (b : option float) :
  (0 <? a) = true ->
  (forall r, b = Some r -> (r <? a) = true) ->
  gt a (Number_or_zero b) = true.
Proof.
  intros Ha Hb. unfold gt. destruct b as [r|]; simpl; [|exact Ha].
  destruct (is_zero r || is_nan r); [exact Ha | now apply Hb].
Qed.

(** The same check on a balance the amount does not exceed. *)
Lemma not_gt_balance (a r : float) :
  (0 <? a) = true -> (a <=? r) = true ->
  Number_or_zero (Some r) = r /\ gt a (Number_or_zero (Some r)) = false.
Proof.
  intros Ha Hle. destruct (le_balance_facts a r Ha Hle) as [Hr Hlt].
  rewrite (Number_or_zero_positive r Hr). now split.
Qed.

(** ** Arrays *)

Section Arrays.
Context {A : Type} (p : A -> bool).

Lemma find_split (l : list A) (c : A) :
  find p l = Some c ->
  exists l1 l2, l = l1 ++ c :: l2 /\ p c = true /\ Forall (fun x => p x = false) l1.
Proof.
  induction l as [|x r IH]; simpl; [discriminate|].
  destruct (p x) eqn:Hx; intros H.
  - injection H as ->. exists [], r. auto.
  - destruct (IH H) as (l1 & l2 & -> & Hc & Hl1).
    exists (x :: l1), l2. auto.
Qed.

Lemma find_first (l1 l2 : list A) (c : A) :
  p c = true -> Forall (fun x => p x = false) l1 ->
  find p (l1 ++ c :: l2) = Some c.
Proof.
  intros Hc Hl1. induction Hl1 as [|x r Hx _ IH]; simpl.
  - now rewrite Hc.
  - now rewrite Hx.
Qed.

Lemma findIndex_first (l1 l2 : list A) (c : A) :
  p c = true -> Forall (fun x => p x = false) l1 ->
  findIndex p (l1 ++ c :: l2) = Some (List.length l1).
Proof.
  intros Hc Hl1. induction Hl1 as [|x r Hx _ IH]; simpl.
  - now rewrite Hc.
  - now rewrite Hx, IH.
Qed.

Lemma nth_error_middle (l1 l2 : list A) (c : A) :
  nth_error (l1 ++ c :: l2) (List.length l1) = Some c.
Proof. induction l1; simpl; auto. Qed.

Lemma set_index_middle (l1 l2 : list A) (c x : A) :
  set_index (List.length l1) x (l1 ++ c :: l2) = l1 ++ x :: l2.
Proof. induction l1; simpl; congruence. Qed.

Lemma find_same (q : A -> bool) (l : list A) :
  (forall x, p x = q x) -> find p l = find q l.
Proof.
  intros E. induction l as [|x r IH]; simpl; [reflexivity|].
  now rewrite <- E, IH.
Qed.

End Arrays.

(** ** The store functions *)

Lemma getCouponById_owner (s : Store) (cid w : string) :
  falsy w = false ->
  Db.getCouponById s cid (Some w) = find (key_is cid w) (coupons s).
Proof.
  intros Hw. unfold Db.getCouponById, Db.loadCoupons.
  apply find_same. intros c. unfold key_is. simpl. now rewrite Hw.
Qed.

Lemma updateCoupon_first (s : Store) (cid w : string) (f : Coupon -> Coupon)
      (l1 l2 : list Coupon) (c : Coupon) :
  coupons s = l1 ++ c :: l2 ->
  key_is cid w c = true ->
  Forall (fun x => key_is cid w x = false) l1 ->
  Db.updateCoupon s cid w f
  = ({| coupons := l1 ++ f c :: l2; events := events s |}, Some (f c)).
Proof.
  intros Hs Hc Hl1. unfold Db.updateCoupon, Db.loadCoupons, Db.saveCoupons.
  rewrite Hs.
  change (fun c0 : Coupon => (id c0 =? cid)%string && (owner_wallet c0 =? w)%string)
    with (key_is cid w).
  rewrite (findIndex_first _ _ _ _ Hc Hl1), nth_error_middle, set_index_middle.
  reflexivity.
Qed.


Lemma key_is_eq (cid w : string) (c : Coupon) :
  key_is cid w c = true <-> id c = cid /\ owner_wallet c = w.
Proof.
  unfold key_is. rewrite andb_true_iff, !String.eqb_eq. tauto.
Qed.

Lemma lookup_split (s : Store) (cid w : string) (c : Coupon) :
  falsy w = false ->
  Db.getCouponById s cid (Some w) = Some c ->
  exists l1 l2, coupons s = l1 ++ c :: l2
                /\ id c = cid /\ owner_wallet c = w
                /\ Forall (fun x => key_is cid w x = false) l1.
Proof.
  intros Hw H. rewrite (getCouponById_owner _ _ _ Hw) in H.
  destruct (find_split _ _ _ H) as (l1 & l2 & Hs & Hc & Hl1).
  apply key_is_eq in Hc. exists l1, l2. tauto.
Qed.

Lemma falsy_false (w : string) : falsy w = false <-> w <> "".
Proof. apply String.eqb_neq. Qed.

Lemma store_eta (s : Store) : s = {| coupons := coupons s; events := events s |}.
Proof. now destruct s. Qed.

Lemma ev_key_is_eq (cid w : string) (e : Event) :
  ev_key_is cid w e = true <-> coupon_id e = cid /\ ev_owner_wallet e = w.
Proof.
  unfold ev_key_is. rewrite andb_true_iff, !String.eqb_eq. tauto.
Qed.

(** The store after the balance of the first coupon of a key was rewritten
    and an event appended: the same key now finds the rewritten coupon. *)
Lemma lookup_after_move (s : Store) (cid w : string) (l1 l2 : list Coupon)
      (c : Coupon) (v : option float) (e : Event) :
  falsy w = false ->
  id c = cid -> owner_wallet c = w ->
  Forall (fun x => key_is cid w x = false) l1 ->
  Db.getCouponById
    {| coupons := l1 ++ set_remaining c v :: l2; events := events s ++ [e] |}
    cid (Some w)
  = Some (set_remaining c v).
Proof.
  intros Hw Hid Hown Hl1. rewrite (getCouponById_owner _ _ _ Hw). simpl.
  apply find_first; [|exact Hl1]. now apply key_is_eq.
Qed.

(** ** The effect of each handler *)


Section Effects.
Variable POOL_ADDRESS : string.

Lemma post_coupons_effect s w lbl amt exp newId now :
  Effect (PostCoupons w lbl amt exp newId now) s
         (fst (Server.post_coupons POOL_ADDRESS s w lbl amt exp newId now)).
Proof.
  unfold Server.post_coupons.
  destruct (falsy w); [now apply eff_none|].
  destruct (falsy lbl); [now apply eff_none|].
  destruct (parseAmountSol amt) as [a|] eqn:Ha; [|now apply eff_none].
  apply parseAmountSol_pos in Ha as (_ & Hf & Ha). store_norm.
  match goal with
  | |- Effect _ _ {| coupons := _ ++ [?c]; events := _ ++ [?e] |} =>
      apply (eff_create _ _ _ c e lbl amt exp now); simpl; auto
  end.
Qed.

Lemma post_deposit_effect s cid w amt sig now :
  Effect (PostDeposit cid w amt sig now) s
         (fst (Server.post_deposit s cid w amt sig now)).
Proof.
  unfold Server.post_deposit.
  destruct (falsy w) eqn:Hw; [now apply eff_none|].
  destruct (parseAmountSol amt) as [a|] eqn:Ha; [|now apply eff_none].
  apply parseAmountSol_pos in Ha as (_ & Hf & Ha).
  destruct (Db.getCouponById s cid (Some w)) as [c|] eqn:Hc; [|now apply eff_none].
  destruct (lookup_split _ _ _ _ Hw Hc) as (l1 & l2 & Hs & <- & <- & Hl1).
  rewrite (updateCoupon_first _ _ _ _ l1 l2 c Hs); auto; [|now apply key_is_eq].
  store_norm.
  match goal with
  | |- Effect _ _ {| coupons := _; events := _ ++ [?e] |} =>
      apply (eff_move _ _ _ l1 l2 c e); simpl; auto
  end.
Qed.

Lemma post_pay_effect s w cid amt merchant memo now :
  Effect (PostPay w cid amt merchant memo now) s
         (fst (Server.post_pay s w cid amt merchant memo now)).
Proof.
  unfold Server.post_pay.
  destruct (falsy w) eqn:Hw; [now apply eff_none|].
  destruct (falsy cid); [now apply eff_none|].
  destruct (falsy merchant); [now apply eff_none|].
  destruct (parseAmountSol amt) as [a|] eqn:Ha; [|now apply eff_none].
  apply parseAmountSol_pos in Ha as (_ & Hf & Ha).
  destruct (Db.getCouponById s cid (Some w)) as [c|] eqn:Hc; [|now apply eff_none].
  destruct (gt a (Number_or_zero (remaining_amount_sol c))) eqn:Hgt;
    [now apply eff_none|].
  destruct (lookup_split _ _ _ _ Hw Hc) as (l1 & l2 & Hs & <- & <- & Hl1).
  rewrite (updateCoupon_first _ _ _ _ l1 l2 c Hs); auto; [|now apply key_is_eq].
  store_norm.
  match goal with
  | |- Effect _ _ {| coupons := _; events := _ ++ [?e] |} =>
      apply (eff_move _ _ _ l1 l2 c e); simpl; auto
  end.
Qed.

Lemma post_withdraw_effect s cid w amt recipient setup now chain :
  Effect (PostWithdrawOnchain cid w amt recipient setup now) s
         (fst (Server.serve POOL_ADDRESS s
                 (PostWithdrawOnchain cid w amt recipient setup now) chain)).
Proof.
  unfold Server.serve, Server.handle, Server.post_withdraw_onchain.
  destruct (falsy w) eqn:Hw; [now apply eff_none|].
  destruct (falsy recipient); [now apply eff_none|].
  destruct (parseAmountSol amt) as [a|] eqn:Ha; [|now apply eff_none].
  apply parseAmountSol_pos in Ha as (_ & Hf & Ha).
  destruct (Db.getCouponById s cid (Some w)) as [c|] eqn:Hc; [|now apply eff_none].
  destruct (gt a (Number_or_zero (remaining_amount_sol c))) eqn:Hgt;
    [now apply eff_none|].
  destruct setup as [message|]; [now apply eff_none|].
  destruct chain as [sig|msg]; [|now apply eff_none].
  destruct (lookup_split _ _ _ _ Hw Hc) as (l1 & l2 & Hs & <- & <- & Hl1).
  rewrite (updateCoupon_first _ _ _ _ l1 l2 c Hs); auto; [|now apply key_is_eq].
  store_norm.
  match goal with
  | |- Effect _ _ {| coupons := _; events := _ ++ [?e] |} =>
      apply (eff_move _ _ _ l1 l2 c e); simpl; auto
  end.
Qed.

Lemma serve_effect s req chain :
  Effect req s (fst (Server.serve POOL_ADDRESS s req chain)).
Proof.
  destruct req.
  - unfold Server.serve; simpl. apply eff_none.
    unfold Server.get_coupons. now destruct (falsy wallet).
  - apply post_coupons_effect.
  - apply post_deposit_effect.
  - apply post_withdraw_effect.
  - apply post_pay_effect.
  - unfold Server.serve; simpl. apply eff_none.
    unfold Server.get_history. destruct (falsy wallet); [reflexivity|].
    now destruct (Db.getCouponById s cid (Some wallet)).
Qed.

End Effects.

(** ** Balances stay non-negative *)

Lemma Forall_middle {A : Type} (P : A -> Prop) (l1 l2 : list A) (x y : A) :
  (P x -> P y) -> Forall P (l1 ++ x :: l2) -> Forall P (l1 ++ y :: l2).
Proof.
  intros Hxy H. apply Forall_app in H as [H1 H2].
  inversion H2; subst. apply Forall_app. split; [exact H1|].
  constructor; auto.
Qed.

(** A debit the check has let through leaves at least 0, whatever is
    stored. *)
Lemma debit_nonneg (cur a : float) :
  is_nan cur = false -> is_finite a = true -> (0 <? a) = true ->
  (cur <? a) = false ->
  match json_number (cur - a) with Some v => (0 <=? v) = true | None => True end.
Proof.
  intros. apply json_number_nonneg. now apply sub_nonneg.
Qed.

Lemma apply_event_nonneg (b : option float) (e : Event) :
  match b with Some v => (0 <=? v) = true | None => True end ->
  is_finite (amount_sol e) = true -> (0 <? amount_sol e) = true ->
  type e = deposit
  \/ ((type e = withdraw \/ type e = pay)
      /\ (Number_or_zero b <? amount_sol e) = false) ->
  match apply_event b e with Some v => (0 <=? v) = true | None => True end.
Proof.
  intros Hb Hf Ha Hty. unfold apply_event.
  destruct Hty as [-> | [[-> | ->] Hlt]].
  - apply json_number_nonneg, add_nonneg.
    + now apply Number_or_zero_nonneg.
    + now apply positive_facts in Ha.
  - apply debit_nonneg; auto using Number_or_zero_not_nan.
  - apply debit_nonneg; auto using Number_or_zero_not_nan.
Qed.

Lemma effect_nonneg (req : Request) (s s' : Store) :
  Effect req s s' ->
  Forall nonneg (coupons s) -> Forall nonneg (coupons s').
Proof.
  intros [-> | c e lbl amt exp now _ -> Hrem Hf Hpos _ _ _ _
             | l1 l2 c e Hs -> _ _ Hf Hamt Hty] Hall; simpl.
  - exact Hall.
  - apply Forall_app. split; [exact Hall|].
    constructor; [|constructor]. unfold nonneg. rewrite Hrem.
    now apply positive_facts in Hpos.
  - rewrite Hs in Hall. revert Hall. apply Forall_middle.
    unfold nonneg. simpl. intros Hc. now apply apply_event_nonneg.
Qed.

Lemma run_nonneg (pool : string) (calls : list (Request * TransferResult)) :
  forall s, Forall nonneg (coupons s) ->
            Forall nonneg (coupons (Server.run pool s calls)).
Proof.
  induction calls as [|[req chain] rest IH]; intros s Hs; simpl.
  - exact Hs.
  - apply IH. eapply effect_nonneg; [apply serve_effect | exact Hs].
Qed.

(** ** The ledger invariant *)

Lemma events_of_snoc (cs cs' : list Coupon) (es : list Event) (e : Event) (c : Coupon) :
  events_of {| coupons := cs; events := es ++ [e] |} c
  = events_of {| coupons := cs'; events := es |} c
    ++ (if ev_key_is (id c) (owner_wallet c) e then [e] else []).
Proof.
  unfold events_of, Db.getEventsForCoupon, Db.loadEvents. simpl.
  rewrite filter_app. reflexivity.
Qed.

Lemma ev_key_is_neq (c : Coupon) (e : Event) :
  (id c, owner_wallet c) <> (coupon_id e, ev_owner_wallet e) ->
  ev_key_is (id c) (owner_wallet c) e = false.
Proof.
  intros Hne. destruct (ev_key_is (id c) (owner_wallet c) e) eqn:E; [|reflexivity].
  apply ev_key_is_eq in E as [E1 E2]. congruence.
Qed.

Lemma no_events_of_fresh (s : Store) (c : Coupon) :
  (forall e, In e (events s) ->
     exists x, In x (coupons s)
               /\ id x = coupon_id e /\ owner_wallet x = ev_owner_wallet e) ->
  existsb (key_is (id c) (owner_wallet c)) (coupons s) = false ->
  events_of s c = [].
Proof.
  intros Howned Hfresh. unfold events_of, Db.getEventsForCoupon, Db.loadEvents.
  induction (events s) as [|e r IH]; simpl; [reflexivity|].
  destruct (String.eqb (coupon_id e) (id c) && String.eqb (ev_owner_wallet e) (owner_wallet c))
    eqn:E.
  - exfalso. apply andb_true_iff in E as [E1 E2].
    apply String.eqb_eq in E1, E2.
    destruct (Howned e (or_introl eq_refl)) as (x & Hx & H1 & H2).
    assert (existsb (key_is (id c) (owner_wallet c)) (coupons s) = true) as Hex.
    { apply existsb_exists. exists x. split; [exact Hx|].
      apply key_is_eq. split; congruence. }
    congruence.
  - apply IH. intros e' He'. apply Howned. now right.
Qed.

Lemma other_key (l1 l2 : list Coupon) (c x : Coupon) :
  NoDup (map (fun c => (id c, owner_wallet c)) (l1 ++ c :: l2)) ->
  In x (l1 ++ l2) ->
  (id x, owner_wallet x) <> (id c, owner_wallet c).
Proof.
  intros Hnd Hx Heq. rewrite map_app in Hnd. simpl in Hnd.
  apply NoDup_remove_2 in Hnd. apply Hnd.
  rewrite <- map_app, <- Heq.
  now apply (in_map (fun c => (id c, owner_wallet c))).
Qed.

Lemma fresh_key (cs : list Coupon) (c x : Coupon) :
  existsb (key_is (id c) (owner_wallet c)) cs = false ->
  In x cs ->
  (id x, owner_wallet x) <> (id c, owner_wallet c).
Proof.
  intros Hfresh Hx Heq.
  assert (existsb (key_is (id c) (owner_wallet c)) cs = true) as Hex.
  { apply existsb_exists. exists x. split; [exact Hx|].
    apply key_is_eq. split; congruence. }
  congruence.
Qed.

Lemma replay_snoc (b : option float) (evs : list Event) (e : Event) :
  replay b (evs ++ [e]) = apply_event (replay b evs) e.
Proof. unfold replay. now rewrite fold_left_app. Qed.

Lemma effect_inv (req : Request) (s s' : Store) :
  fresh_id s req = true -> Effect req s s' -> Inv s -> Inv s'.
Proof.
  intros Hfresh
    [-> | c e lbl amt exp now -> -> Hrem Hfin Hpos Hid Hown Hty Hamt
        | l1 l2 c e Hs -> Hid Hown Hfin Hamt Hv] [Hkeys Howned Hbal Hhist].
  - now constructor.
  - simpl in Hfresh. apply negb_true_iff in Hfresh.
    assert (events_of s c = []) as Hnone by now apply no_events_of_fresh.
    assert (forall x, In x (coupons s) ->
              ev_key_is (id x) (owner_wallet x) e = false) as Hmiss.
    { intros x Hx. apply ev_key_is_neq. rewrite Hid, Hown.
      now apply fresh_key with (cs := coupons s). }
    assert (ev_key_is (id c) (owner_wallet c) e = true) as Hhit
        by now apply ev_key_is_eq.
    constructor; simpl.
    + rewrite map_app. simpl.
      apply (NoDup_Add (Add_app _ _ [])). rewrite app_nil_r.
      split; [exact Hkeys|]. intros Hin. apply in_map_iff in Hin as (x & Hx & Hin).
      now apply (fresh_key _ _ _ Hfresh Hin).
    + intros e' He'. apply in_app_or in He' as [He' | [<- | []]].
      * destruct (Howned _ He') as (x & Hx & H1 & H2).
        exists x. split; [apply in_or_app; now left | now split].
      * exists c. split; [apply in_or_app; right; now left | now split].
    + intros x Hx. rewrite (events_of_snoc _ (coupons s)), <- (store_eta s).
      apply in_app_or in Hx as [Hx | [<- | []]].
      * rewrite (Hmiss _ Hx), app_nil_r. now apply Hbal.
      * rewrite Hhit, Hnone, Hrem. simpl. unfold apply_event. now rewrite Hty.
    + intros x Hx. rewrite (events_of_snoc _ (coupons s)), <- (store_eta s).
      apply in_app_or in Hx as [Hx | [<- | []]].
      * rewrite (Hmiss _ Hx), app_nil_r. now apply Hhist.
      * rewrite Hhit, Hnone. simpl. repeat split; auto.
        exists e, []. auto.
  - set (c' := set_remaining c (apply_event (remaining_amount_sol c) e)).
    assert (forall x, In x (l1 ++ l2) ->
              ev_key_is (id x) (owner_wallet x) e = false) as Hmiss.
    { intros x Hx. apply ev_key_is_neq. rewrite Hid, Hown.
      apply (other_key l1 l2); [now rewrite <- Hs | exact Hx]. }
    assert (forall x, In x (l1 ++ l2) -> In x (coupons s)) as Hold.
    { intros x Hx. rewrite Hs. apply in_app_or in Hx as [Hx | Hx];
        apply in_or_app; [now left | right; now right]. }
    assert (In c (coupons s)) as Hc.
    { rewrite Hs. apply in_or_app. right. now left. }
    assert (forall x, In x (l1 ++ c' :: l2) -> x = c' \/ In x (l1 ++ l2)) as Hcases.
    { intros x Hx. apply in_app_or in Hx as [Hx | [Hx | Hx]];
        [right | now left | right]; apply in_or_app; tauto. }
    assert (ev_key_is (id c) (owner_wallet c) e = true) as Hhit
        by now apply ev_key_is_eq.
    assert (type e <> create) as Hnc.
    { destruct Hv as [Hty | [[Hty | Hty] _]]; rewrite Hty; discriminate. }
    constructor; simpl.
    + rewrite map_app. simpl. rewrite Hs, map_app in Hkeys. exact Hkeys.
    + intros e' He'. apply in_app_or in He' as [He' | [<- | []]].
      * destruct (Howned _ He') as (x & Hx & H1 & H2).
        rewrite Hs in Hx. apply in_app_or in Hx as [Hx | [<- | Hx]].
        -- exists x. split; [apply in_or_app; now left | now split].
        -- exists c'. split; [apply in_or_app; right; now left | now split].
        -- exists x. split; [apply in_or_app; right; now right | now split].
      * exists c'. split; [apply in_or_app; right; now left | now split].
    + intros x Hx. rewrite (events_of_snoc _ (coupons s)), <- (store_eta s).
      destruct (Hcases _ Hx) as [-> | Hx'].
      * change (events_of s c') with (events_of s c).
        change (id c') with (id c). change (owner_wallet c') with (owner_wallet c).
        rewrite Hhit, replay_snoc.
        change (initial_amount_sol c') with (initial_amount_sol c).
        now rewrite <- (Hbal _ Hc).
      * rewrite (Hmiss _ Hx'), app_nil_r. apply Hbal, Hold, Hx'.
    + intros x Hx. rewrite (events_of_snoc _ (coupons s)), <- (store_eta s).
      destruct (Hcases _ Hx) as [-> | Hx'].
      * change (events_of s c') with (events_of s c).
        change (id c') with (id c). change (owner_wallet c') with (owner_wallet c).
        change (initial_amount_sol c') with (initial_amount_sol c).
        rewrite Hhit.
        destruct (Hhist _ Hc) as (H1 & H2 & e0 & rest & Hev & Hty0 & Ham0 & Hrest).
        repeat split; auto.
        exists e0, (rest ++ [e]). rewrite Hev. simpl. repeat split; auto.
        apply Forall_app. split; [exact Hrest|]. constructor; [exact Hnc|constructor].
      * rewrite (Hmiss _ Hx'), app_nil_r. apply Hhist, Hold, Hx'.
Qed.

Lemma Inv_empty : Inv empty_store.
Proof.
  constructor; simpl; try (intros ? []). constructor.
Qed.

Lemma run_inv (pool : string) (calls : list (Request * TransferResult)) :
  forall s, ids_fresh pool s calls = true -> Inv s ->
            Inv (Server.run pool s calls).
Proof.
  induction calls as [|[req chain] rest IH]; intros s Hfresh Hs; simpl.
  - exact Hs.
  - simpl in Hfresh. apply andb_true_iff in Hfresh as [H1 H2].
    apply IH; [exact H2|].
    eapply effect_inv; [exact H1 | apply serve_effect | exact Hs].
Qed.

Lemma replay_without_create (evs : list Event) (b : option float) :
  Forall (fun e => type e <> create) evs ->
  fold_left apply_signed evs b = replay b evs.
Proof.
  intros H. revert b. induction H as [|e r He _ IH]; intros b; simpl; [reflexivity|].
  rewrite IH. f_equal. unfold apply_signed, apply_event.
  destruct (type e); [contradiction | reflexivity..].
Qed.

(** On a history that begins with the create event of a finite positive
    initial amount and has no other, counting the create event from 0 or
    starting from the initial amount comes to the same. *)
Lemma signed_replay_history (init : float) (e0 : Event) (rest : list Event) :
  is_finite init = true -> (0 <? init) = true ->
  type e0 = create -> amount_sol e0 = init ->
  Forall (fun e => type e <> create) rest ->
  signed_replay (e0 :: rest) = replay (Some init) (e0 :: rest).
Proof.
  intros Hf Hp Hty Ham Hrest. unfold signed_replay. simpl.
  rewrite (replay_without_create _ _ Hrest). f_equal.
  unfold apply_signed, apply_event. rewrite Hty, Ham.
  change (Number_or_zero (Some 0)) with 0.
  pose proof (positive_facts init Hp) as (_ & Hz & _).
  rewrite (zero_add init Hz). now apply json_number_positive.
Qed.

(** * The ledger properties *)

(** C1, as stated, fails on the code in four ways.  Rounding: a coupon of
    10^16 with two deposits of 1 stores 10^16, which is neither the binary64
    value of initial + deposits (10^16 + 2) nor the unrounded sum.
    Overflow: a coupon of 2^1023 with a deposit of 2^1023 stores [null],
    where the formula gives Infinity in binary64 and 2^1024 without
    rounding.  A repeated id: the second of two coupons created with one id
    for one wallet keeps 2.5 while the deposit recorded under its key makes
    the formula 3.5.  Overlap: a pay served while a withdrawal awaits its
    transfer is overwritten, and the coupon keeps 0.5 against a formula of
    -0.5. *)
Lemma ledger_equation_fails_by_rounding_clash_and_overlap :
  (let s := Server.run DEFAULT_POOL_ADDRESS empty_store rounding_session in
   ids_fresh DEFAULT_POOL_ADDRESS empty_store rounding_session = true
   /\ exists c, In c (coupons s)
                /\ remaining_amount_sol c = Some 1e16
                /\ ledger_balance s c = 10000000000000002
                /\ (1e16 =? ledger_balance s c) = false
                /\ ~ (exact 1e16 == ledger_exact s c)%Q)
  /\ (let s := Server.run DEFAULT_POOL_ADDRESS empty_store overflow_session in
      ids_fresh DEFAULT_POOL_ADDRESS empty_store overflow_session = true
      /\ exists c, In c (coupons s)
                   /\ remaining_amount_sol c = None
                   /\ ledger_balance s c = infinity
                   /\ ~ (0 == ledger_exact s c)%Q)
  /\ (let s := Server.run DEFAULT_POOL_ADDRESS empty_store clash_session in
      ids_fresh DEFAULT_POOL_ADDRESS empty_store clash_session = false
      /\ exists c, In c (coupons s)
                   /\ remaining_amount_sol c = Some 2.5
                   /\ ledger_balance s c = 3.5
                   /\ ~ (exact 2.5 == ledger_exact s c)%Q)
  /\ (let s := store (play DEFAULT_POOL_ADDRESS boot overlap_session) in
      exists c, In c (coupons s)
                /\ remaining_amount_sol c = Some 0.5
                /\ ledger_balance s c = -0.5
                /\ ~ (exact 0.5 == ledger_exact s c)%Q).
Proof.
  split; [|split; [|split]].
  - split; [reflexivity|]. eexists. split; [left; reflexivity|].
    repeat split; try reflexivity. intros H. vm_compute in H. discriminate H.
  - split; [reflexivity|]. eexists. split; [left; reflexivity|].
    repeat split; try reflexivity. intros H. vm_compute in H. discriminate H.
  - split; [reflexivity|]. eexists. split; [right; left; reflexivity|].
    repeat split; try reflexivity. intros H. vm_compute in H. discriminate H.
  - eexists. split; [left; reflexivity|].
    repeat split; try reflexivity. intros H. vm_compute in H. discriminate H.
Qed.

(** C1, amended.  After every sequence of requests served one after the
    other from the empty store, in which no [POST /coupons] drew an id its
    wallet already had, the [remaining_amount_sol] of every coupon is its
    [initial_amount_sol] with the coupon's deposit, withdraw and pay events
    applied in their order, each deposit added and each withdrawal and
    payment subtracted in binary64 (a balance that overflows is stored as
    [null] and read as 0).  The same holds from any store whose ledger is
    consistent in the sense of [Inv], not only from the empty one. *)
Theorem balance_is_initial_with_events_applied_in_order
        (pool : string) (calls : list (Request * TransferResult)) :
  (ids_fresh pool empty_store calls = true ->
   Forall (fun c => remaining_amount_sol c
                    = replay (Some (initial_amount_sol c))
                             (events_of (Server.run pool empty_store calls) c))
          (coupons (Server.run pool empty_store calls)))
  /\ (forall s,
        Inv s -> ids_fresh pool s calls = true ->
        Forall (fun c => remaining_amount_sol c
                         = replay (Some (initial_amount_sol c))
                                  (events_of (Server.run pool s calls) c))
               (coupons (Server.run pool s calls))).
Proof.
  assert (forall s,
            Inv s -> ids_fresh pool s calls = true ->
            Forall (fun c => remaining_amount_sol c
                             = replay (Some (initial_amount_sol c))
                                      (events_of (Server.run pool s calls) c))
                   (coupons (Server.run pool s calls))) as H.
  { intros s Hinv Hfresh. apply Forall_forall. intros c Hc.
    apply (inv_balance _ (run_inv pool calls s Hfresh Hinv) c Hc). }
  split; [|exact H].
  intros Hfresh. apply H; [apply Inv_empty | exact Hfresh].
Qed.

Lemma balance_is_initial_with_events_applied_in_order_witness :
  ids_fresh DEFAULT_POOL_ADDRESS empty_store session = true
  /\ Forall (fun c => remaining_amount_sol c
                      = replay (Some (initial_amount_sol c))
                               (events_of after_session c))
            (coupons after_session).
Proof.
  split.
  - reflexivity.
  - apply (proj1 (balance_is_initial_with_events_applied_in_order
                    DEFAULT_POOL_ADDRESS session)).
    reflexivity.
Defined.

(** C2. After every sequence of requests served from the empty store, no
    coupon has a negative [remaining_amount_sol]; a request served on a
    store without negative balances leaves none behind; and [POST /pay] and
    [withdraw-onchain] with an amount above the remaining balance of the
    coupon they find leave the store as it was. *)
Theorem remaining_never_negative
        (pool : string) (calls : list (Request * TransferResult)) :
  Forall nonneg (coupons (Server.run pool empty_store calls))
  /\ (forall s req chain,
        Forall nonneg (coupons s) ->
        Forall nonneg (coupons (fst (Server.serve pool s req chain))))
  /\ (forall s cid w a c recipient merchant memo setup now chain,
        Db.getCouponById s cid (Some w) = Some c ->
        (forall r, remaining_amount_sol c = Some r -> (r <? a) = true) ->
        fst (Server.serve pool s (PostPay w cid a merchant memo now) chain) = s
        /\ fst (Server.serve pool s
                  (PostWithdrawOnchain cid w a recipient setup now) chain) = s).
Proof.
  split; [apply (run_nonneg pool calls empty_store); constructor|].
  split.
  - intros s req chain Hs.
    apply (effect_nonneg req s); [apply serve_effect | exact Hs].
  - intros s cid w a c recipient merchant memo setup now chain Hc Hgt.
    unfold Server.serve, Server.handle, Server.post_pay, Server.post_withdraw_onchain.
    destruct (parseAmountSol a) as [q|] eqn:Hq.
    + apply parseAmountSol_pos in Hq as (<- & _ & Hpos).
      rewrite Hc, (gt_balance a _ Hpos Hgt). split.
      * destruct (falsy w); [reflexivity|].
        destruct (falsy cid); [reflexivity|].
        now destruct (falsy merchant).
      * destruct (falsy w); [reflexivity|].
        now destruct (falsy recipient).
    + split.
      * destruct (falsy w); [reflexivity|].
        destruct (falsy cid); [reflexivity|].
        now destruct (falsy merchant).
      * destruct (falsy w); [reflexivity|].
        now destruct (falsy recipient).
Qed.

Lemma remaining_never_negative_witness :
  Forall nonneg (coupons after_session)
  /\ fst (Server.serve DEFAULT_POOL_ADDRESS after_session
            (PostWithdrawOnchain "CPN-A1B2-C3D4" "W1" 2 "R1" None "t6")
            (Confirmed "SIG124"))
     = after_session.
Proof.
  destruct (remaining_never_negative DEFAULT_POOL_ADDRESS session) as (H1 & _ & H3).
  split; [exact H1|].
  apply (H3 after_session "CPN-A1B2-C3D4" "W1" 2 lunch_coupon
            "R1" "M1" None None "t6" (Confirmed "SIG124")).
  - vm_compute. reflexivity.
  - intros r Hr. injection Hr as <-. reflexivity.
Defined.

(** C3, as stated, fails: right after [POST /coupons] with amount 2.5 the
    coupon has remaining 2.5, while its initial amount plus the signed sum
    of its events, the [create] event counted as an addition, is 5.  With
    the initial amount left out of the sum, the signed sum still fails when
    it is taken without rounding or in another order than that of the
    events (10^16 + 2 against a stored 10^16), after an overflow ([null]
    stored, Infinity summed), after a repeated id (2.5 stored, 6 summed)
    and after a pay that overlapped a pending withdrawal (0.5 stored, -0.5
    summed). *)
Lemma initial_plus_signed_sum_counts_create_twice :
  (let s := Server.run DEFAULT_POOL_ADDRESS empty_store [(lunch, Failed "")] in
   exists c, In c (coupons s)
             /\ remaining_amount_sol c = Some 2.5
             /\ initial_amount_sol c + signed_sum (events_of s c) = 5
             /\ ~ (exact 2.5
                   == exact (initial_amount_sol c) + signed_exact (events_of s c))%Q)
  /\ (let s := Server.run DEFAULT_POOL_ADDRESS empty_store rounding_session in
      exists c, In c (coupons s)
                /\ remaining_amount_sol c = Some 1e16
                /\ signed_sum (rev (events_of s c)) = 10000000000000002
                /\ ~ (exact 1e16 == signed_exact (events_of s c))%Q)
  /\ (let s := Server.run DEFAULT_POOL_ADDRESS empty_store overflow_session in
      exists c, In c (coupons s)
                /\ remaining_amount_sol c = None
                /\ signed_sum (events_of s c) = infinity
                /\ ~ (0 == signed_exact (events_of s c))%Q)
  /\ (let s := Server.run DEFAULT_POOL_ADDRESS empty_store clash_session in
      ids_fresh DEFAULT_POOL_ADDRESS empty_store clash_session = false
      /\ exists c, In c (coupons s)
                   /\ remaining_amount_sol c = Some 2.5
                   /\ signed_sum (events_of s c) = 6
                   /\ ~ (exact 2.5 == signed_exact (events_of s c))%Q)
  /\ (let s := store (play DEFAULT_POOL_ADDRESS boot overlap_session) in
      exists c, In c (coupons s)
                /\ remaining_amount_sol c = Some 0.5
                /\ signed_sum (events_of s c) = -0.5
                /\ ~ (exact 0.5 == signed_exact (events_of s c))%Q).
Proof.
  split; [|split; [|split; [|split]]].
  - eexists. split; [left; reflexivity|].
    repeat split; try reflexivity. intros H. vm_compute in H. discriminate H.
  - eexists. split; [left; reflexivity|].
    repeat split; try reflexivity. intros H. vm_compute in H. discriminate H.
  - eexists. split; [left; reflexivity|].
    repeat split; try reflexivity. intros H. vm_compute in H. discriminate H.
  - split; [reflexivity|]. eexists. split; [right; left; reflexivity|].
    repeat split; try reflexivity. intros H. vm_compute in H. discriminate H.
  - eexists. split; [left; reflexivity|].
    repeat split; try reflexivity. intros H. vm_compute in H. discriminate H.
Qed.

(** C3, amended.  After every sequence of requests served one after the
    other from the empty store, in which no [POST /coupons] drew an id its
    wallet already had, the [remaining_amount_sol] of every coupon is the
    signed sum of the amounts of all its events, create and deposit added,
    withdraw and pay subtracted, taken from 0 in the order of the events in
    binary64 (a balance that overflows is stored as [null] and read as 0);
    [initial_amount_sol] is the amount of the create event, the first of
    the coupon's events, and is not added a second time.  The same holds
    from any store whose ledger is consistent in the sense of [Inv], not
    only from the empty one. *)
Theorem balance_is_signed_sum_of_events
        (pool : string) (calls : list (Request * TransferResult)) :
  (ids_fresh pool empty_store calls = true ->
   Forall (fun c =>
             remaining_amount_sol c
             = signed_replay (events_of (Server.run pool empty_store calls) c)
             /\ exists e0 rest,
                  events_of (Server.run pool empty_store calls) c = e0 :: rest
                  /\ type e0 = create
                  /\ amount_sol e0 = initial_amount_sol c)
          (coupons (Server.run pool empty_store calls)))
  /\ (forall s,
        Inv s -> ids_fresh pool s calls = true ->
        Forall (fun c =>
                  remaining_amount_sol c
                  = signed_replay (events_of (Server.run pool s calls) c)
                  /\ exists e0 rest,
                       events_of (Server.run pool s calls) c = e0 :: rest
                       /\ type e0 = create
                       /\ amount_sol e0 = initial_amount_sol c)
               (coupons (Server.run pool s calls))).
Proof.
  assert (forall s,
            Inv s -> ids_fresh pool s calls = true ->
            Forall (fun c =>
                      remaining_amount_sol c
                      = signed_replay (events_of (Server.run pool s calls) c)
                      /\ exists e0 rest,
                           events_of (Server.run pool s calls) c = e0 :: rest
                           /\ type e0 = create
                           /\ amount_sol e0 = initial_amount_sol c)
                   (coupons (Server.run pool s calls))) as H.
  { intros s Hinv Hfresh. apply Forall_forall. intros c Hc.
    pose proof (run_inv pool calls s Hfresh Hinv) as [_ _ Hbal Hhist].
    destruct (Hhist c Hc) as (Hf & Hp & e0 & rest & Hev & Hty & Ham & Hrest).
    split; [|exists e0, rest; auto].
    rewrite (Hbal c Hc), Hev. symmetry. now apply signed_replay_history. }
  split; [|exact H].
  intros Hfresh. apply H; [apply Inv_empty | exact Hfresh].
Qed.

Lemma balance_is_signed_sum_of_events_witness :
  ids_fresh DEFAULT_POOL_ADDRESS empty_store session = true
  /\ Forall (fun c =>
               remaining_amount_sol c = signed_replay (events_of after_session c)
               /\ exists e0 rest,
                    events_of after_session c = e0 :: rest
                    /\ type e0 = create
                    /\ amount_sol e0 = initial_amount_sol c)
            (coupons after_session).
Proof.
  split.
  - reflexivity.
  - apply (proj1 (balance_is_signed_sum_of_events DEFAULT_POOL_ADDRESS session)).
    reflexivity.
Defined.

(** ** Single requests *)

(** C4. When [withdraw-onchain] has sent the transfer and the transfer or
    its confirmation raises an error, the handler answers status 500 with
    the error "on-chain withdraw failed" and the message as details, and the
    store is the one it found: no balance changed, no event appended.  The
    same holds when the request, instead of reaching the transfer, finds
    that the engine key or the recipient key cannot be prepared. *)
Theorem withdraw_failed_transfer_leaves_store
        (pool : string) (s : Store) (cid w : string) (amt : float)
        (recipient : string) (setup : option string) (now : string)
        (to : string) (lamports : option Z)
        (k : TransferResult -> Store -> Store * Response) (message : string) :
  Server.post_withdraw_onchain s cid w amt recipient setup now
  = AwaitTransfer to lamports k ->
  (forall st, k (Failed message) st
              = (st, {| status := 500;
                        body := BErrorDetails "on-chain withdraw failed" message |}))
  /\ Server.serve pool s (PostWithdrawOnchain cid w amt recipient setup now)
                  (Failed message)
     = (s, {| status := 500;
              body := BErrorDetails "on-chain withdraw failed" message |})
  /\ Server.post_withdraw_onchain s cid w amt recipient (Some message) now
     = Respond s {| status := 500;
                    body := BErrorDetails "on-chain withdraw failed" message |}.
Proof.
  intros H.
  assert (forall st, k (Failed message) st
              = (st, {| status := 500;
                        body := BErrorDetails "on-chain withdraw failed" message |}))
    as Hk.
  { revert H. unfold Server.post_withdraw_onchain.
    destruct (falsy w); [discriminate|].
    destruct (falsy recipient); [discriminate|].
    destruct (parseAmountSol amt); [|discriminate].
    destruct (Db.getCouponById s cid (Some w)); [|discriminate].
    destruct (gt _ _); [discriminate|].
    destruct setup; [discriminate|].
    intros H st. injection H as _ _ <-. reflexivity. }
  split; [exact Hk|]. split.
  - unfold Server.serve, Server.handle. rewrite H. apply Hk.
  - revert H. unfold Server.post_withdraw_onchain.
    destruct (falsy w); [discriminate|].
    destruct (falsy recipient); [discriminate|].
    destruct (parseAmountSol amt); [|discriminate].
    destruct (Db.getCouponById s cid (Some w)); [|discriminate].
    destruct (gt _ _); [discriminate|]. reflexivity.
Qed.

Lemma withdraw_failed_transfer_leaves_store_witness :
  exists to lamports k,
    Server.post_withdraw_onchain after_session "CPN-A1B2-C3D4" "W1"
      0.5 "R1" None "2024-01-01T10:05:00.000Z"
    = AwaitTransfer to lamports k
    /\ Server.serve DEFAULT_POOL_ADDRESS after_session
         (PostWithdrawOnchain "CPN-A1B2-C3D4" "W1" 0.5 "R1" None
                              "2024-01-01T10:05:00.000Z")
         (Failed "blockhash not found")
       = (after_session,
          {| status := 500;
             body := BErrorDetails "on-chain withdraw failed" "blockhash not found" |}).
Proof.
  eexists _, _, _. split.
  - vm_compute. reflexivity.
  - eapply withdraw_failed_transfer_leaves_store. vm_compute. reflexivity.
Defined.

(** C5, as stated, fails in two ways.  Rounding: a confirmed withdrawal of
    1 from a coupon holding 10^16, an amount below the balance, writes
    10^16 - 1 rounded to binary64, which is 10^16: the event is recorded
    and the balance has not moved.  Overlap: a withdrawal of 1 arrives on a
    coupon of 1.5 and, while its transfer is pending, a pay of 1 brings the
    coupon to 0.5; the confirmed withdrawal then writes 1.5 - 1, so the
    balance it finds, 0.5, is the balance it leaves. *)
Lemma confirmed_withdraw_may_leave_the_balance :
  (let s := Server.run DEFAULT_POOL_ADDRESS empty_store rounding_session in
   exists c s' c' e,
     Db.getCouponById s "CPN-0000-0001" (Some "W1") = Some c
     /\ remaining_amount_sol c = Some 1e16
     /\ (0 <? 1) = true /\ (1 <=? 1e16) = true
     /\ Server.serve DEFAULT_POOL_ADDRESS s
          (PostWithdrawOnchain "CPN-0000-0001" "W1" 1 "R1" None "t3")
          (Confirmed "SIG123")
        = (s', ok (BWithdrawn (Some c') e "SIG123"))
     /\ Db.getCouponById s' "CPN-0000-0001" (Some "W1") = Some c'
     /\ remaining_amount_sol c' = Some 1e16
     /\ events s' = events s ++ [e]
     /\ type e = withdraw /\ amount_sol e = 1
     /\ ~ (exact 1e16 == exact 1e16 - exact 1)%Q)
  /\ (let before := play DEFAULT_POOL_ADDRESS boot (firstn 3 overlap_session) in
      let after := play DEFAULT_POOL_ADDRESS boot overlap_session in
      exists c c' e,
        Db.getCouponById (store before) "CPN-A1B2-C3D4" (Some "W1") = Some c
        /\ remaining_amount_sol c = Some 0.5
        /\ Db.getCouponById (store after) "CPN-A1B2-C3D4" (Some "W1") = Some c'
        /\ remaining_amount_sol c' = Some 0.5
        /\ events (store after) = events (store before) ++ [e]
        /\ type e = withdraw /\ amount_sol e = 1
        /\ tx_sig e = Some "SIG1").
Proof.
  split.
  - eexists _, _, _, _. repeat split; try reflexivity.
    intros H. vm_compute in H. discriminate H.
  - eexists _, _, _. repeat split; reflexivity.
Qed.

(** C5, amended.  [withdraw-onchain] on an existing coupon of the wallet,
    with a finite positive amount not above the remaining balance [r] it
    reads and a non-empty recipient, sends the transfer to the recipient;
    when the transfer is confirmed with signature [sig], whatever other
    requests were served on the store in the meantime, the coupon's
    remaining balance is set to the binary64 difference [r - amount], the
    other coupons stay as they are, and exactly one event is appended, of
    type withdraw, with the amount, [tx_sig = sig] and [to_address] the
    recipient. *)
Theorem withdraw_confirmed_debits_and_records
        (pool : string) (s : Store) (cid w recipient now sig : string)
        (a r : float) (c : Coupon) :
  w <> "" -> recipient <> "" ->
  is_finite a = true -> (0 <? a) = true ->
  Db.getCouponById s cid (Some w) = Some c ->
  remaining_amount_sol c = Some r ->
  (a <=? r) = true ->
  exists k,
    Server.handle pool s (PostWithdrawOnchain cid w a recipient None now)
    = AwaitTransfer recipient (Math_round (a * LAMPORTS_PER_SOL)) k
    /\ Server.serve pool s (PostWithdrawOnchain cid w a recipient None now)
                    (Confirmed sig)
       = k (Confirmed sig) s
    /\ forall st c0,
         Db.getCouponById st cid (Some w) = Some c0 ->
         exists st' c' e l1 l2,
           k (Confirmed sig) st = (st', ok (BWithdrawn (Some c') e sig))
           /\ Db.getCouponById st' cid (Some w) = Some c'
           /\ c' = set_remaining c0 (json_number (r - a))
           /\ coupons st = l1 ++ c0 :: l2 /\ coupons st' = l1 ++ c' :: l2
           /\ events st' = events st ++ [e]
           /\ type e = withdraw /\ amount_sol e = a
           /\ coupon_id e = cid /\ ev_owner_wallet e = w
           /\ tx_sig e = Some sig /\ to_address e = recipient.
Proof.
  intros Hw Hr Hf Ha Hc Hrem Hle.
  apply falsy_false in Hw, Hr.
  destruct (not_gt_balance a r Ha Hle) as [HN Hgt].
  unfold Server.serve, Server.handle, Server.post_withdraw_onchain.
  rewrite Hw, Hr, (parseAmountSol_finite _ Hf Ha), Hc, Hrem, Hgt, HN.
  eexists. split; [reflexivity|]. split; [reflexivity|].
  intros st c0 Hc0.
  destruct (lookup_split _ _ _ _ Hw Hc0) as (l1 & l2 & Hs & Hid & Hown & Hl1).
  rewrite (updateCoupon_first _ _ _ _ l1 l2 c0 Hs); auto; [|now apply key_is_eq].
  store_norm. eexists _, _, _, l1, l2. split; [reflexivity|].
  split; [now apply lookup_after_move|].
  simpl. repeat split; auto.
Qed.

Lemma withdraw_confirmed_debits_and_records_witness :
  Db.getCouponById after_session "CPN-A1B2-C3D4" (Some "W1") = Some lunch_coupon
  /\ remaining_amount_sol lunch_coupon = Some 1.5
  /\ exists s' c' e,
       Server.serve DEFAULT_POOL_ADDRESS after_session
         (PostWithdrawOnchain "CPN-A1B2-C3D4" "W1" 1 "R1" None "t6")
         (Confirmed "SIG123")
       = (s', ok (BWithdrawn (Some c') e "SIG123"))
       /\ remaining_amount_sol c' = Some 0.5
       /\ events s' = events after_session ++ [e]
       /\ tx_sig e = Some "SIG123" /\ to_address e = "R1".
Proof.
  split; [vm_compute; reflexivity|]. split; [reflexivity|].
  destruct (withdraw_confirmed_debits_and_records
              DEFAULT_POOL_ADDRESS after_session "CPN-A1B2-C3D4" "W1" "R1" "t6"
              "SIG123" 1 1.5 lunch_coupon)
    as (k & _ & Hs & Hk).
  - discriminate.
  - discriminate.
  - reflexivity.
  - reflexivity.
  - vm_compute. reflexivity.
  - reflexivity.
  - reflexivity.
  - destruct (Hk after_session lunch_coupon)
      as (s' & c' & e & l1 & l2 & H1 & _ & H2 & _ & _ & H3 & _ & _ & _ & _ & H4 & H5).
    + vm_compute. reflexivity.
    + exists s', c', e. rewrite Hs. repeat split; auto.
      rewrite H2. reflexivity.
Defined.

(** C6. [POST /pay] on an existing coupon of the wallet with an amount above
    the coupon's remaining balance answers status 400 "insufficient coupon
    balance" and leaves the store as it was: the balance is unchanged and no
    event is appended.  (A balance stored as [null] is read as 0.) *)
Theorem pay_above_balance_is_refused
        (s : Store) (w cid merchant now : string) (memo : option string)
        (a : float) (c : Coupon) :
  w <> "" -> cid <> "" -> merchant <> "" ->
  is_finite a = true -> (0 <? a) = true ->
  Db.getCouponById s cid (Some w) = Some c ->
  (forall r, remaining_amount_sol c = Some r -> (r <? a) = true) ->
  Server.post_pay s w cid a merchant memo now
  = (s, bad_request "insufficient coupon balance").
Proof.
  intros Hw Hcid Hm Hf Ha Hc Hgt.
  apply falsy_false in Hw, Hcid, Hm.
  unfold Server.post_pay.
  rewrite Hw, Hcid, Hm, (parseAmountSol_finite _ Hf Ha), Hc.
  now rewrite (gt_balance a _ Ha Hgt).
Qed.

Lemma pay_above_balance_is_refused_witness :
  Server.post_pay after_session "W1" "CPN-A1B2-C3D4" 5 "M1" None "t6"
  = (after_session, bad_request "insufficient coupon balance").
Proof.
  apply (pay_above_balance_is_refused
           after_session "W1" "CPN-A1B2-C3D4" "M1" "t6" None 5 lunch_coupon).
  - discriminate.
  - discriminate.
  - discriminate.
  - reflexivity.
  - reflexivity.
  - vm_compute. reflexivity.
  - intros r Hr. injection Hr as <-. reflexivity.
Defined.

(** C7, as stated, fails: a pay of 1 from a coupon holding 10^16, an amount
    below the balance, is answered 200 and recorded as a pay event, and the
    balance written is 10^16 - 1 rounded to binary64, which is 10^16: it
    has not decreased. *)
Lemma pay_may_leave_the_balance :
  let s := Server.run DEFAULT_POOL_ADDRESS empty_store rounding_session in
  exists c s' c' e,
    Db.getCouponById s "CPN-0000-0001" (Some "W1") = Some c
    /\ remaining_amount_sol c = Some 1e16
    /\ (0 <? 1) = true /\ (1 <=? 1e16) = true
    /\ Server.post_pay s "W1" "CPN-0000-0001" 1 "M1" None "t3"
       = (s', ok (BCouponEvent (Some c') e))
    /\ Db.getCouponById s' "CPN-0000-0001" (Some "W1") = Some c'
    /\ remaining_amount_sol c' = Some 1e16
    /\ events s' = events s ++ [e]
    /\ type e = pay /\ amount_sol e = 1
    /\ ~ (exact 1e16 == exact 1e16 - exact 1)%Q.
Proof.
  eexists _, _, _, _. repeat split; try reflexivity.
  intros H. vm_compute in H. discriminate H.
Qed.

(** C7, amended.  [POST /pay] on an existing coupon of the wallet, with a
    finite positive amount not above the remaining balance [r] and a
    non-empty merchant: the coupon's remaining balance is set to the
    binary64 difference [r - amount], the other coupons stay as they are,
    and exactly one event is appended, of type pay, with the amount,
    [to_address] the merchant, the note of the request ([null] for an
    absent or empty one) and [tx_sig = null]; the handler answers without
    awaiting any transfer. *)
Theorem pay_debits_and_records
        (pool : string) (s : Store) (w cid merchant now : string)
        (memo : option string) (a r : float) (c : Coupon) :
  w <> "" -> cid <> "" -> merchant <> "" ->
  is_finite a = true -> (0 <? a) = true ->
  Db.getCouponById s cid (Some w) = Some c ->
  remaining_amount_sol c = Some r ->
  (a <=? r) = true ->
  exists s' c' e l1 l2,
    Server.post_pay s w cid a merchant memo now
    = (s', ok (BCouponEvent (Some c') e))
    /\ Server.handle pool s (PostPay w cid a merchant memo now)
       = Respond s' (ok (BCouponEvent (Some c') e))
    /\ Db.getCouponById s' cid (Some w) = Some c'
    /\ c' = set_remaining c (json_number (r - a))
    /\ coupons s = l1 ++ c :: l2 /\ coupons s' = l1 ++ c' :: l2
    /\ events s' = events s ++ [e]
    /\ type e = pay /\ amount_sol e = a
    /\ coupon_id e = cid /\ ev_owner_wallet e = w
    /\ to_address e = merchant /\ note e = or_null memo /\ tx_sig e = None.
Proof.
  intros Hw Hcid Hm Hf Ha Hc Hrem Hle.
  apply falsy_false in Hw, Hcid, Hm.
  destruct (not_gt_balance a r Ha Hle) as [HN Hgt].
  unfold Server.handle, Server.post_pay.
  rewrite Hw, Hcid, Hm, (parseAmountSol_finite _ Hf Ha), Hc, Hrem, Hgt, HN.
  destruct (lookup_split _ _ _ _ Hw Hc) as (l1 & l2 & Hs & Hid & Hown & Hl1).
  rewrite (updateCoupon_first _ _ _ _ l1 l2 c Hs); auto; [|now apply key_is_eq].
  store_norm.
  eexists _, _, _, l1, l2. split; [reflexivity|]. split; [reflexivity|].
  split; [now apply lookup_after_move|].
  simpl. repeat split; auto.
Qed.

Lemma pay_debits_and_records_witness :
  exists s' c' e,
    Server.post_pay after_session "W1" "CPN-A1B2-C3D4" 1 "M1" (Some "tea") "t6"
    = (s', ok (BCouponEvent (Some c') e))
    /\ remaining_amount_sol c' = Some 0.5
    /\ events s' = events after_session ++ [e]
    /\ type e = pay /\ to_address e = "M1"
    /\ note e = Some "tea" /\ tx_sig e = None.
Proof.
  destruct (pay_debits_and_records
              DEFAULT_POOL_ADDRESS after_session "W1" "CPN-A1B2-C3D4" "M1" "t6"
              (Some "tea") 1 1.5 lunch_coupon)
    as (s' & c' & e & l1 & l2 & H1 & _ & _ & H2 & _ & _ & H3 & H4 & _ & _ & _
        & H5 & H6 & H7).
  - discriminate.
  - discriminate.
  - discriminate.
  - reflexivity.
  - reflexivity.
  - vm_compute. reflexivity.
  - reflexivity.
  - reflexivity.
  - exists s', c', e. repeat split; auto. rewrite H2. reflexivity.
Defined.

(** C8. [POST /coupons] with a non-empty wallet, a non-empty label and a
    finite positive amount answers status 201 with a new coupon whose
    initial and remaining amounts are the amount, stores it after the
    existing coupons, and appends exactly one event: of type create, for
    that coupon, with the amount, [to_address] the wallet and
    [tx_sig = null]. *)
Theorem create_issues_coupon_and_event
        (pool : string) (s : Store) (w lbl newId now : string)
        (expiry : option string) (a : float) :
  w <> "" -> lbl <> "" -> is_finite a = true -> (0 <? a) = true ->
  exists s' c e,
    Server.post_coupons pool s w lbl a expiry newId now
    = (s', {| status := 201; body := BCreated c |})
    /\ id c = newId /\ label c = lbl /\ owner_wallet c = w
    /\ initial_amount_sol c = a /\ remaining_amount_sol c = Some a
    /\ coupons s' = coupons s ++ [c]
    /\ events s' = events s ++ [e]
    /\ type e = create /\ amount_sol e = a
    /\ coupon_id e = id c /\ ev_owner_wallet e = w
    /\ to_address e = w /\ tx_sig e = None.
Proof.
  intros Hw Hl Hf Ha. apply falsy_false in Hw, Hl.
  unfold Server.post_coupons.
  rewrite Hw, Hl, (parseAmountSol_finite _ Hf Ha). store_norm.
  eexists _, _, _. split; [reflexivity|]. simpl. repeat split.
Qed.

Lemma create_issues_coupon_and_event_witness :
  exists s' c e,
    Server.post_coupons DEFAULT_POOL_ADDRESS empty_store "W1" "Lunch"
                        2.5 None "CPN-A1B2-C3D4" "t0"
    = (s', {| status := 201; body := BCreated c |})
    /\ initial_amount_sol c = 2.5 /\ remaining_amount_sol c = Some 2.5
    /\ events s' = [e] /\ type e = create /\ amount_sol e = 2.5.
Proof.
  destruct (create_issues_coupon_and_event
              DEFAULT_POOL_ADDRESS empty_store "W1" "Lunch" "CPN-A1B2-C3D4" "t0"
              None 2.5)
    as (s' & c & e & H1 & _ & _ & _ & H2 & H3 & _ & H4 & H5 & H6 & _).
  - discriminate.
  - discriminate.
  - reflexivity.
  - reflexivity.
  - exists s', c, e. repeat split; auto.
Defined.

(** ** Queries *)

Lemma filter_Forall {A : Type} (p : A -> bool) (l : list A) :
  Forall (fun x => p x = true) (filter p l).
Proof.
  apply Forall_forall. intros x Hx. now apply filter_In in Hx.
Qed.

Lemma getCouponsByOwner_owner (s : Store) (wallet : string) :
  Forall (fun c => owner_wallet c = wallet) (Db.getCouponsByOwner s wallet).
Proof.
  unfold Db.getCouponsByOwner.
  eapply Forall_impl; [|apply filter_Forall].
  intros c Hc. now apply String.eqb_eq.
Qed.

Lemma getEventsForCoupon_owner (s : Store) (cid wallet : string) :
  Forall (fun e => coupon_id e = cid /\ ev_owner_wallet e = wallet)
         (Db.getEventsForCoupon s cid wallet).
Proof.
  unfold Db.getEventsForCoupon.
  eapply Forall_impl; [|apply filter_Forall].
  intros e He. now apply ev_key_is_eq.
Qed.

(** C9. [GET /coupons] and [GET /coupons/:id/history] hand out only coupons
    and events whose [owner_wallet] is the wallet of the query, as do the
    store functions under them; and the history of an id that no coupon of
    the (non-empty) wallet carries is answered 404 "coupon not found for
    this wallet", with no coupon and no event in the body. *)
Theorem queries_are_scoped_to_the_owner
        (pool : string) (s : Store) (cid wallet : string) :
  Forall (fun c => owner_wallet c = wallet) (Db.getCouponsByOwner s wallet)
  /\ Forall (fun e => ev_owner_wallet e = wallet) (Db.getEventsForCoupon s cid wallet)
  /\ Forall (fun c => owner_wallet c = wallet)
            (coupons_in (snd (Server.get_coupons pool s wallet)))
  /\ Forall (fun e => ev_owner_wallet e = wallet)
            (events_in (snd (Server.get_coupons pool s wallet)))
  /\ Forall (fun c => owner_wallet c = wallet)
            (coupons_in (snd (Server.get_history s cid wallet)))
  /\ Forall (fun e => ev_owner_wallet e = wallet)
            (events_in (snd (Server.get_history s cid wallet)))
  /\ (wallet <> "" ->
      Forall (fun c => id c = cid -> owner_wallet c <> wallet) (coupons s) ->
      Server.get_history s cid wallet = (s, not_found)
      /\ coupons_in not_found = [] /\ events_in not_found = []).
Proof.
  split; [apply getCouponsByOwner_owner|].
  split.
  { eapply Forall_impl; [|apply getEventsForCoupon_owner]. now intros e [_ H]. }
  split.
  { unfold Server.get_coupons. destruct (falsy wallet); [constructor|].
    unfold coupons_in. simpl. rewrite map_map. simpl. rewrite map_id.
    apply getCouponsByOwner_owner. }
  split.
  { unfold Server.get_coupons. destruct (falsy wallet); [constructor|].
    unfold events_in. simpl. rewrite map_map. simpl.
    pose proof (getCouponsByOwner_owner s wallet) as Hcs.
    induction Hcs as [|c r Hc _ IH]; simpl; [constructor|].
    apply Forall_app. split; [|exact IH].
    rewrite Hc.
    eapply Forall_impl; [|apply getEventsForCoupon_owner]. now intros e [_ H]. }
  assert (forall c, falsy wallet = false ->
            Db.getCouponById s cid (Some wallet) = Some c ->
            owner_wallet c = wallet) as Hfound.
  { intros c Hw Hc.
    destruct (lookup_split _ _ _ _ Hw Hc) as (_ & _ & _ & _ & H & _). exact H. }
  split.
  { unfold Server.get_history. destruct (falsy wallet) eqn:Hw; [constructor|].
    destruct (Db.getCouponById s cid (Some wallet)) as [c|] eqn:Hc; [|constructor].
    constructor; [now apply Hfound | constructor]. }
  split.
  { unfold Server.get_history. destruct (falsy wallet) eqn:Hw; [constructor|].
    destruct (Db.getCouponById s cid (Some wallet)) as [c|] eqn:Hc; [|constructor].
    unfold events_in. simpl.
    eapply Forall_impl; [|apply getEventsForCoupon_owner]. now intros e [_ H]. }
  intros Hw Hnone. apply falsy_false in Hw.
  split; [|split; reflexivity].
  unfold Server.get_history. rewrite Hw.
  destruct (Db.getCouponById s cid (Some wallet)) as [c|] eqn:Hc; [|reflexivity].
  exfalso.
  destruct (lookup_split _ _ _ _ Hw Hc) as (l1 & l2 & Hs & Hid & Hown & _).
  rewrite Forall_forall in Hnone.
  apply (Hnone c); auto.
  rewrite Hs. apply in_or_app. right. now left.
Qed.

Lemma queries_are_scoped_to_the_owner_witness :
  (exists c, In c (coupons after_session) /\ id c = "CPN-A1B2-C3D4")
  /\ Server.get_history after_session "CPN-A1B2-C3D4" "W2" = (after_session, not_found).
Proof.
  split.
  - eexists. split; [left; reflexivity | reflexivity].
  - apply (queries_are_scoped_to_the_owner
             DEFAULT_POOL_ADDRESS after_session "CPN-A1B2-C3D4" "W2").
    + discriminate.
    + repeat constructor; simpl; discriminate.
Defined.

(** C10. [getCouponById(id, owner)] with [owner] absent, [null] or the empty
    string applies no owner filter: it returns the first stored coupon whose
    id is [id], whatever its [owner_wallet]; with a non-empty [owner] it
    returns the first coupon whose id and [owner_wallet] both match. *)
Theorem getCouponById_without_owner_ignores_owner
        (s : Store) (cid : string) :
  Db.getCouponById s cid None
  = find (fun c => String.eqb (id c) cid) (coupons s)
  /\ Db.getCouponById s cid (Some "")
     = find (fun c => String.eqb (id c) cid) (coupons s)
  /\ (forall l1 l2 c,
        coupons s = l1 ++ c :: l2 -> id c = cid ->
        Forall (fun x => id x <> cid) l1 ->
        Db.getCouponById s cid None = Some c
        /\ Db.getCouponById s cid (Some "") = Some c)
  /\ (forall w, w <> "" ->
        Db.getCouponById s cid (Some w)
        = find (fun c => String.eqb (id c) cid && String.eqb (owner_wallet c) w)
               (coupons s)).
Proof.
  assert (Db.getCouponById s cid None
          = find (fun c => String.eqb (id c) cid) (coupons s)) as H1.
  { unfold Db.getCouponById, Db.loadCoupons. apply find_same.
    intros c. simpl. now rewrite andb_true_r. }
  assert (Db.getCouponById s cid (Some "")
          = find (fun c => String.eqb (id c) cid) (coupons s)) as H2.
  { unfold Db.getCouponById, Db.loadCoupons. apply find_same.
    intros c. simpl. now rewrite andb_true_r. }
  split; [exact H1|]. split; [exact H2|]. split.
  - intros l1 l2 c Hs Hid Hl1. rewrite H1, H2, Hs.
    assert (find (fun c0 => String.eqb (id c0) cid) (l1 ++ c :: l2) = Some c) as ->.
    { apply find_first; [now apply String.eqb_eq|].
      eapply Forall_impl; [|exact Hl1]. intros x Hx. now apply String.eqb_neq. }
    now split.
  - intros w Hw. apply falsy_false in Hw.
    now rewrite (getCouponById_owner _ _ _ Hw).
Qed.

Lemma getCouponById_without_owner_ignores_owner_witness :
  exists c,
    Db.getCouponById after_session "CPN-A1B2-C3D4" None = Some c
    /\ Db.getCouponById after_session "CPN-A1B2-C3D4" (Some "") = Some c
    /\ owner_wallet c = "W1"
    /\ Db.getCouponById after_session "CPN-A1B2-C3D4" (Some "W2") = None.
Proof.
  destruct (getCouponById_without_owner_ignores_owner after_session "CPN-A1B2-C3D4")
    as (_ & _ & H & Hw).
  destruct (H [] []
              lunch_coupon)
    as [H1 H2].
  - vm_compute. reflexivity.
  - reflexivity.
  - constructor.
  - eexists. split; [exact H1|]. split; [exact H2|]. split; [reflexivity|].
    rewrite (Hw "W2"); [reflexivity | discriminate].
Defined.


(** * Further properties of the store and of the routes *)

(** ** Every route, case by case *)

Lemma or_null_not_empty (x : option string) : or_null x <> Some "".
Proof.
  destruct x as [t|]; simpl; [|discriminate].
  destruct (falsy t) eqn:E; [discriminate|].
  apply falsy_false in E. congruence.
Qed.

Lemma refused_400 (pool w : string) (s : Store) (msg : string) :
  Served pool w s s (bad_request msg).
Proof. apply served_refused; auto. Qed.

Lemma refused_404 (pool w : string) (s : Store) :
  Served pool w s s not_found.
Proof. apply served_refused; auto. Qed.

Lemma get_coupons_served pool s w :
  Served pool w s (fst (Server.get_coupons pool s w))
         (snd (Server.get_coupons pool s w)).
Proof.
  unfold Server.get_coupons. destruct (falsy w); simpl.
  - apply refused_400.
  - now apply served_read.
Qed.

Lemma get_history_served pool s cid w :
  Served pool w s (fst (Server.get_history s cid w))
         (snd (Server.get_history s cid w)).
Proof.
  unfold Server.get_history. destruct (falsy w); simpl; [apply refused_400|].
  destruct (Db.getCouponById s cid (Some w)); simpl.
  - now apply served_read.
  - apply refused_404.
Qed.

Lemma post_coupons_served pool s w lbl amt exp newId now :
  Served pool w s (fst (Server.post_coupons pool s w lbl amt exp newId now))
         (snd (Server.post_coupons pool s w lbl amt exp newId now)).
Proof.
  unfold Server.post_coupons.
  destruct (falsy w) eqn:Hw; [apply refused_400|].
  destruct (falsy lbl) eqn:Hl; [apply refused_400|].
  destruct (parseAmountSol amt) as [a|] eqn:Ha; [|apply refused_400].
  apply parseAmountSol_pos in Ha as (_ & Hf & Ha).
  apply falsy_false in Hw, Hl. simpl.
  eapply served_created; simpl; try reflexivity.
  - repeat split; auto. apply or_null_not_empty.
  - repeat split; auto.
Qed.

Lemma post_deposit_served pool s cid w amt sig now :
  Served pool w s (fst (Server.post_deposit s cid w amt sig now))
         (snd (Server.post_deposit s cid w amt sig now)).
Proof.
  unfold Server.post_deposit.
  destruct (falsy w) eqn:Hw; [apply refused_400|].
  destruct (parseAmountSol amt) as [a|] eqn:Ha; [|apply refused_400].
  apply parseAmountSol_pos in Ha as (_ & Hf & Ha).
  destruct (Db.getCouponById s cid (Some w)) as [c|] eqn:Hc; [|apply refused_404].
  destruct (lookup_split _ _ _ _ Hw Hc) as (l1 & l2 & Hs & <- & <- & Hl1).
  rewrite (updateCoupon_first _ _ _ _ l1 l2 c Hs); auto; [|now apply key_is_eq].
  apply falsy_false in Hw. simpl.
  eapply served_moved; simpl; try reflexivity; eauto.
  - discriminate.
  - repeat split; auto. apply or_null_not_empty.
Qed.

Lemma post_pay_served pool s w cid amt merchant memo now :
  Served pool w s (fst (Server.post_pay s w cid amt merchant memo now))
         (snd (Server.post_pay s w cid amt merchant memo now)).
Proof.
  unfold Server.post_pay.
  destruct (falsy w) eqn:Hw; [apply refused_400|].
  destruct (falsy cid); [apply refused_400|].
  destruct (falsy merchant) eqn:Hm; [apply refused_400|].
  destruct (parseAmountSol amt) as [a|] eqn:Ha; [|apply refused_400].
  apply parseAmountSol_pos in Ha as (_ & Hf & Ha).
  destruct (Db.getCouponById s cid (Some w)) as [c|] eqn:Hc; [|apply refused_404].
  destruct (gt a (Number_or_zero (remaining_amount_sol c))); [apply refused_400|].
  destruct (lookup_split _ _ _ _ Hw Hc) as (l1 & l2 & Hs & <- & <- & Hl1).
  rewrite (updateCoupon_first _ _ _ _ l1 l2 c Hs); auto; [|now apply key_is_eq].
  apply falsy_false in Hw, Hm. simpl.
  eapply served_moved; simpl; try reflexivity; eauto.
  - discriminate.
  - repeat split; auto. apply or_null_not_empty.
Qed.

Lemma post_withdraw_served pool s cid w amt recipient setup now chain :
  Served pool w s
         (fst (Server.serve pool s (PostWithdrawOnchain cid w amt recipient setup now) chain))
         (snd (Server.serve pool s (PostWithdrawOnchain cid w amt recipient setup now) chain)).
Proof.
  unfold Server.serve, Server.handle, Server.post_withdraw_onchain.
  destruct (falsy w) eqn:Hw; [apply refused_400|].
  destruct (falsy recipient) eqn:Hr; [apply refused_400|].
  destruct (parseAmountSol amt) as [a|] eqn:Ha; [|apply refused_400].
  apply parseAmountSol_pos in Ha as (_ & Hf & Ha).
  destruct (Db.getCouponById s cid (Some w)) as [c|] eqn:Hc; [|apply refused_404].
  destruct (gt a (Number_or_zero (remaining_amount_sol c))); [apply refused_400|].
  destruct setup as [message|]; [apply served_refused; auto|].
  destruct chain as [sig|msg]; [|apply served_refused; auto].
  destruct (lookup_split _ _ _ _ Hw Hc) as (l1 & l2 & Hs & <- & <- & Hl1).
  rewrite (updateCoupon_first _ _ _ _ l1 l2 c Hs); auto; [|now apply key_is_eq].
  apply falsy_false in Hw, Hr. simpl.
  eapply served_moved; simpl; try reflexivity; eauto.
  - discriminate.
  - split; [exact Ha|]. split; [exact Hf|]. split; [exact Hw|]. simpl.
    split; [exact Hr|]. split; [reflexivity|]. now exists sig.
Qed.

Lemma serve_served (pool : string) (s : Store) (req : Request) (chain : TransferResult) :
  Served pool (wallet_of req) s (fst (Server.serve pool s req chain))
         (snd (Server.serve pool s req chain)).
Proof.
  destruct req; simpl.
  - apply get_coupons_served.
  - apply post_coupons_served.
  - apply post_deposit_served.
  - apply post_withdraw_served.
  - apply post_pay_served.
  - apply get_history_served.
Qed.

(** ** What no request does *)

(** X1. A request answered with a status other than 200 or 201 has changed
    nothing in the store, and its body carries no coupon and no event. *)
Theorem refused_request_changes_nothing
        (pool : string) (s : Store) (req : Request) (chain : TransferResult) :
  status (snd (Server.serve pool s req chain)) <> 200%nat ->
  status (snd (Server.serve pool s req chain)) <> 201%nat ->
  fst (Server.serve pool s req chain) = s
  /\ coupons_in (snd (Server.serve pool s req chain)) = []
  /\ events_in (snd (Server.serve pool s req chain)) = [].
Proof.
  intros H200 H201.
  destruct (serve_served pool s req chain)
    as [Hs _ Hc He | _ H | c e _ Hr | l1 l2 c e _ _ _ H].
  - auto.
  - contradiction.
  - rewrite Hr in H201. simpl in H201. contradiction.
  - contradiction.
Qed.

Lemma refused_request_changes_nothing_witness :
  fst (Server.serve DEFAULT_POOL_ADDRESS after_session
         (PostPay "W1" "CPN-A1B2-C3D4" 5 "M1" None "t6") (Failed ""))
  = after_session.
Proof.
  apply (refused_request_changes_nothing DEFAULT_POOL_ADDRESS after_session
           (PostPay "W1" "CPN-A1B2-C3D4" 5 "M1" None "t6") (Failed "")).
  - vm_compute. discriminate.
  - vm_compute. discriminate.
Defined.

(** X2. The event log is append-only: serving a request appends at most one
    event and rewrites or removes none, a store that got no new event is
    unchanged altogether, and after any sequence of requests the earlier
    log is a prefix of the later one. *)
Theorem events_are_append_only (pool : string) :
  (forall s req chain,
     exists new, events (fst (Server.serve pool s req chain)) = events s ++ new
                 /\ (List.length new <= 1)%nat
                 /\ (new = [] -> fst (Server.serve pool s req chain) = s))
  /\ (forall s calls,
        exists new, events (Server.run pool s calls) = events s ++ new).
Proof.
  assert (forall s req chain,
     exists new, events (fst (Server.serve pool s req chain)) = events s ++ new
                 /\ (List.length new <= 1)%nat
                 /\ (new = [] -> fst (Server.serve pool s req chain) = s)) as Hstep.
  { intros s req chain.
    destruct (serve_served pool s req chain)
      as [Hs _ _ _ | Hs _ | c e Hs | l1 l2 c e _ _ Hs].
    - exists []. rewrite Hs, app_nil_r. auto.
    - exists []. rewrite Hs, app_nil_r. auto.
    - exists [e]. rewrite Hs. simpl. repeat split; auto. discriminate.
    - exists [e]. rewrite Hs. simpl. repeat split; auto. discriminate. }
  split; [exact Hstep|].
  intros s calls. revert s. induction calls as [|[req chain] rest IH]; intros s; simpl.
  - exists []. now rewrite app_nil_r.
  - destruct (Hstep s req chain) as (n1 & H1 & _).
    destruct (IH (fst (Server.serve pool s req chain))) as (n2 & H2).
    exists (n1 ++ n2). now rewrite H2, H1, app_assoc.
Qed.

Lemma map_identity_of_middle (l1 l2 : list Coupon) (c : Coupon) (v : option float) :
  map identity_of (l1 ++ set_remaining c v :: l2)
  = map identity_of (l1 ++ c :: l2).
Proof. now rewrite !map_app. Qed.

(** X3. Coupons are never removed, reordered or relabelled: apart from
    [remaining_amount_sol], the stored coupons after a request are those
    before it, in the same order, followed by at most one new coupon; and
    so after any sequence of requests. *)
Theorem coupons_keep_their_identity (pool : string) :
  (forall s req chain,
     exists added,
       map identity_of (coupons (fst (Server.serve pool s req chain)))
       = map identity_of (coupons s) ++ added
       /\ (List.length added <= 1)%nat)
  /\ (forall s calls,
        exists added,
          map identity_of (coupons (Server.run pool s calls))
          = map identity_of (coupons s) ++ added).
Proof.
  assert (forall s req chain,
     exists added,
       map identity_of (coupons (fst (Server.serve pool s req chain)))
       = map identity_of (coupons s) ++ added
       /\ (List.length added <= 1)%nat) as Hstep.
  { intros s req chain.
    destruct (serve_served pool s req chain)
      as [Hs _ _ _ | Hs _ | c e Hs | l1 l2 c e Hcs _ Hs].
    - exists []. rewrite Hs, app_nil_r. auto.
    - exists []. rewrite Hs, app_nil_r. auto.
    - exists [identity_of c]. rewrite Hs. simpl. rewrite map_app. auto.
    - exists []. rewrite Hs, Hcs, app_nil_r. simpl.
      split; [apply map_identity_of_middle | auto]. }
  split; [exact Hstep|].
  intros s calls. revert s. induction calls as [|[req chain] rest IH]; intros s; simpl.
  - exists []. now rewrite app_nil_r.
  - destruct (Hstep s req chain) as (n1 & H1 & _).
    destruct (IH (fst (Server.serve pool s req chain))) as (n2 & H2).
    exists (n1 ++ n2). now rewrite H2, H1, app_assoc.
Qed.

Lemma filter_middle_out {A : Type} (p : A -> bool) (l1 l2 : list A) (x y : A) :
  p x = false -> p y = false ->
  filter p (l1 ++ x :: l2) = filter p (l1 ++ y :: l2).
Proof.
  intros Hx Hy. rewrite !filter_app. simpl. now rewrite Hx, Hy.
Qed.

Lemma filter_snoc_out {A : Type} (p : A -> bool) (l : list A) (x : A) :
  p x = false -> filter p (l ++ [x]) = filter p l.
Proof.
  intros Hx. rewrite filter_app. simpl. rewrite Hx. apply app_nil_r.
Qed.

(** X4. A request made in the name of one wallet leaves every other wallet
    alone: the coupons another wallet lists and the events of any of its
    coupons are the same before and after. *)
Theorem requests_touch_only_their_wallet
        (pool : string) (s : Store) (req : Request) (chain : TransferResult)
        (other : string) :
  other <> wallet_of req ->
  Db.getCouponsByOwner (fst (Server.serve pool s req chain)) other
  = Db.getCouponsByOwner s other
  /\ forall cid,
       Db.getEventsForCoupon (fst (Server.serve pool s req chain)) cid other
       = Db.getEventsForCoupon s cid other.
Proof.
  intros Hother.
  assert (forall w, w = wallet_of req -> String.eqb w other = false) as Hneq.
  { intros w ->. apply String.eqb_neq. congruence. }
  destruct (serve_served pool s req chain)
    as [Hs _ _ _ | Hs _ | c e Hs _ Hc _ _ _ He _ _ _
        | l1 l2 c e Hcs _ Hs _ _ _ Hc _ He _ _];
    rewrite Hs; try (split; reflexivity);
    unfold Db.getCouponsByOwner, Db.getEventsForCoupon, Db.loadCoupons, Db.loadEvents;
    simpl.
  - split; [|intros cid]; apply filter_snoc_out.
    + now apply Hneq.
    + rewrite (Hneq _ He). apply andb_false_r.
  - split; [|intros cid].
    + rewrite Hcs. apply filter_middle_out; simpl; now apply Hneq.
    + apply filter_snoc_out. rewrite (Hneq _ He). apply andb_false_r.
Qed.

Lemma requests_touch_only_their_wallet_witness :
  Db.getCouponsByOwner
    (fst (Server.serve DEFAULT_POOL_ADDRESS after_session
            (PostCoupons "W2" "Dinner" 4 None "CPN-A1B2-C3D4" "t6")
            (Failed "")))
    "W1"
  = Db.getCouponsByOwner after_session "W1".
Proof.
  apply (requests_touch_only_their_wallet DEFAULT_POOL_ADDRESS after_session
           (PostCoupons "W2" "Dinner" 4 None "CPN-A1B2-C3D4" "t6")
           (Failed "") "W1").
  discriminate.
Defined.

(** ** What every stored record looks like *)

Lemma run_preserves (pool : string) (P : Store -> Prop) :
  (forall s req chain, P s -> P (fst (Server.serve pool s req chain))) ->
  forall calls s, P s -> P (Server.run pool s calls).
Proof.
  intros Hstep calls. induction calls as [|[req chain] rest IH]; intros s Hs; simpl.
  - exact Hs.
  - apply IH, Hstep, Hs.
Qed.

(** X5. After every sequence of requests served from the empty store, every
    stored coupon has a non-empty owner and label, a positive initial
    amount, the pool address of the server and no empty expiry; every event
    has a positive amount and a non-empty owner; create and deposit events
    are addressed to the owner; every withdraw event carries a transaction
    signature and create and pay events carry none; only pay events carry a
    note. *)
Theorem stored_records_are_well_formed
        (pool : string) (calls : list (Request * TransferResult)) :
  Forall (coupon_shape pool) (coupons (Server.run pool empty_store calls))
  /\ Forall event_shape (events (Server.run pool empty_store calls)).
Proof.
  apply (run_preserves pool
           (fun s => Forall (coupon_shape pool) (coupons s)
                     /\ Forall event_shape (events s))).
  - intros s req chain [Hc He].
    destruct (serve_served pool s req chain)
      as [Hs _ _ _ | Hs _ | c e Hs _ _ Hshape _ _ _ _ _ Heshape
          | l1 l2 c e Hcs _ Hs _ _ _ _ _ _ _ Heshape];
      rewrite Hs; simpl; auto.
    + split; apply Forall_app; auto.
    + split; [|apply Forall_app; auto].
      rewrite Hcs in Hc. revert Hc. apply Forall_middle. auto.
  - split; constructor.
Qed.

(** X6. After every sequence of requests served from the empty store, every
    event refers to a stored coupon with the same id and the same owner. *)
Theorem every_event_has_its_coupon
        (pool : string) (calls : list (Request * TransferResult)) :
  Forall (fun e => exists c, In c (coupons (Server.run pool empty_store calls))
                             /\ id c = coupon_id e
                             /\ owner_wallet c = ev_owner_wallet e)
         (events (Server.run pool empty_store calls)).
Proof.
  apply Forall_forall.
  apply (run_preserves pool
           (fun s => forall e, In e (events s) ->
                       exists c, In c (coupons s) /\ id c = coupon_id e
                                 /\ owner_wallet c = ev_owner_wallet e)).
  - intros s req chain Hinv.
    destruct (serve_served pool s req chain)
      as [Hs _ _ _ | Hs _ | c e Hs _ Hc _ _ Hid He _ _ _
          | l1 l2 c e Hcs _ Hs _ _ _ Hc Hid He _ _];
      rewrite Hs; simpl; auto.
    + intros e' He'. apply in_app_or in He' as [He' | [<- | []]].
      * destruct (Hinv _ He') as (x & Hx & H1 & H2).
        exists x. split; [apply in_or_app; now left | now split].
      * exists c. split; [apply in_or_app; right; now left | split; congruence].
    + assert (forall x, In x (coupons s) ->
                exists y, In y (l1 ++ set_remaining c (apply_event (remaining_amount_sol c) e) :: l2)
                          /\ id y = id x /\ owner_wallet y = owner_wallet x) as Hkeep.
      { intros x Hx. rewrite Hcs in Hx. apply in_app_or in Hx as [Hx | [<- | Hx]].
        - exists x. split; [apply in_or_app; now left | now split].
        - exists (set_remaining c (apply_event (remaining_amount_sol c) e)). split; [apply in_or_app; right; now left | now split].
        - exists x. split; [apply in_or_app; right; now right | now split]. }
      intros e' He'. apply in_app_or in He' as [He' | [<- | []]].
      * destruct (Hinv _ He') as (x & Hx & H1 & H2).
        destruct (Hkeep _ Hx) as (y & Hy & H3 & H4).
        exists y. split; [exact Hy | split; congruence].
      * exists (set_remaining c (apply_event (remaining_amount_sol c) e)).
        split; [apply in_or_app; right; now left | split; simpl; congruence].
  - intros e [].
Qed.

(** ** What the two queries show *)

(** X8. After every sequence of requests served one after the other from
    the empty store, in which no [POST /coupons] drew an id its wallet
    already had, the remaining balance of every coupon that [GET /coupons]
    or [GET /coupons/:id/history] shows can be recomputed from the events
    shown with it: starting from 0 and going through them in order, create
    and deposit amounts added, withdraw and pay amounts subtracted, each
    step in binary64 as the handlers take it. *)
Theorem queries_show_consistent_books
        (pool : string) (calls : list (Request * TransferResult))
        (cid w : string) :
  ids_fresh pool empty_store calls = true ->
  Forall (fun ce => remaining_amount_sol (fst ce) = signed_replay (snd ce))
         (entries_in (snd (Server.get_coupons pool
                             (Server.run pool empty_store calls) w)))
  /\ Forall (fun ce => remaining_amount_sol (fst ce) = signed_replay (snd ce))
            (entries_in (snd (Server.get_history
                                (Server.run pool empty_store calls) cid w))).
Proof.
  intros Hfresh.
  pose proof (run_inv pool calls empty_store Hfresh Inv_empty) as [_ _ Hbal Hhist].
  set (s := Server.run pool empty_store calls) in *.
  assert (forall c, In c (coupons s) ->
            remaining_amount_sol c = signed_replay (events_of s c)) as Hsum.
  { intros c Hc.
    destruct (Hhist c Hc) as (Hf & Hp & e0 & rest & Hev & Hty & Ham & Hrest).
    rewrite (Hbal c Hc), Hev. symmetry. now apply signed_replay_history. }
  split.
  - unfold Server.get_coupons. destruct (falsy w); [constructor|].
    unfold entries_in. simpl. apply Forall_forall. intros [c evs] Hin.
    apply in_map_iff in Hin as (c0 & Heq & Hc0). injection Heq as <- <-.
    apply Hsum. unfold Db.getCouponsByOwner in Hc0. now apply filter_In in Hc0.
  - unfold Server.get_history. destruct (falsy w) eqn:Hw; [constructor|].
    destruct (Db.getCouponById s cid (Some w)) as [c|] eqn:Hc; [|constructor].
    destruct (lookup_split _ _ _ _ Hw Hc) as (l1 & l2 & Hs & Hid & Hown & _).
    constructor; [|constructor]. simpl.
    rewrite <- Hid, <- Hown. apply Hsum.
    rewrite Hs. apply in_or_app. right. now left.
Qed.

Lemma queries_show_consistent_books_witness :
  Forall (fun ce => remaining_amount_sol (fst ce) = signed_replay (snd ce))
         (entries_in (snd (Server.get_history after_session "CPN-A1B2-C3D4" "W1"))).
Proof.
  apply (queries_show_consistent_books DEFAULT_POOL_ADDRESS session
           "CPN-A1B2-C3D4" "W1").
  reflexivity.
Defined.

(** ** Single requests, continued *)

(** X9. [POST /coupons/:id/deposit] on an existing coupon of the wallet with
    a finite positive amount always succeeds: the coupon's remaining balance
    becomes the binary64 sum of the balance read ([null] read as 0) and the
    amount, written as [null] when the sum overflows; the other coupons stay
    as they are, and exactly one event is appended, of type deposit,
    addressed to the wallet, with the [tx_sig] of the request ([null] for an
    absent or empty one); the signature is recorded, not checked. *)
Theorem deposit_credits_and_records
        (s : Store) (cid w now : string) (sig : option string)
        (a : float) (c : Coupon) :
  w <> "" -> is_finite a = true -> (0 <? a) = true ->
  Db.getCouponById s cid (Some w) = Some c ->
  exists s' c' e l1 l2,
    Server.post_deposit s cid w a sig now
    = (s', ok (BCouponEvent (Some c') e))
    /\ Db.getCouponById s' cid (Some w) = Some c'
    /\ c' = set_remaining c
              (json_number (Number_or_zero (remaining_amount_sol c) + a))
    /\ coupons s = l1 ++ c :: l2 /\ coupons s' = l1 ++ c' :: l2
    /\ events s' = events s ++ [e]
    /\ type e = deposit /\ amount_sol e = a
    /\ coupon_id e = cid /\ ev_owner_wallet e = w
    /\ to_address e = w /\ note e = None /\ tx_sig e = or_null sig.
Proof.
  intros Hw Hf Ha Hc. apply falsy_false in Hw.
  unfold Server.post_deposit.
  rewrite Hw, (parseAmountSol_finite _ Hf Ha), Hc.
  destruct (lookup_split _ _ _ _ Hw Hc) as (l1 & l2 & Hs & Hid & Hown & Hl1).
  rewrite (updateCoupon_first _ _ _ _ l1 l2 c Hs); auto; [|now apply key_is_eq].
  store_norm. eexists _, _, _, l1, l2. split; [reflexivity|].
  split; [now apply lookup_after_move|].
  simpl. repeat split; auto.
Qed.

Lemma deposit_credits_and_records_witness :
  exists s' c' e,
    Server.post_deposit after_session "CPN-A1B2-C3D4" "W1" 2 None "t6"
    = (s', ok (BCouponEvent (Some c') e))
    /\ remaining_amount_sol c' = Some 3.5
    /\ events s' = events after_session ++ [e]
    /\ type e = deposit /\ tx_sig e = None.
Proof.
  destruct (deposit_credits_and_records
              after_session "CPN-A1B2-C3D4" "W1" "t6" None 2 lunch_coupon)
    as (s' & c' & e & l1 & l2 & H1 & _ & H2 & _ & _ & H3 & H4 & _ & _ & _ & _
        & _ & H5).
  - discriminate.
  - reflexivity.
  - reflexivity.
  - vm_compute. reflexivity.
  - exists s', c', e. repeat split; auto. rewrite H2. reflexivity.
Defined.

Lemma lookup_foreign (s : Store) (cid w : string) :
  falsy w = false ->
  Forall (fun c => id c = cid -> owner_wallet c <> w) (coupons s) ->
  Db.getCouponById s cid (Some w) = None.
Proof.
  intros Hw Hall.
  destruct (Db.getCouponById s cid (Some w)) as [c|] eqn:Hc; [|reflexivity].
  exfalso.
  destruct (lookup_split _ _ _ _ Hw Hc) as (l1 & l2 & Hs & Hid & Hown & _).
  rewrite Forall_forall in Hall. apply (Hall c); auto.
  rewrite Hs. apply in_or_app. right. now left.
Qed.

(** X10. A wallet cannot move the balance of a coupon it does not own: when
    no stored coupon has both the id and the wallet of the request, deposit,
    pay and withdraw-onchain answer 404 "coupon not found for this wallet"
    and leave the store as it was, and withdraw-onchain does so without
    starting a transfer. *)
Theorem foreign_coupon_is_not_found
        (s : Store) (cid w recipient merchant now : string)
        (sig memo setup : option string) (a : float) :
  w <> "" -> cid <> "" -> recipient <> "" -> merchant <> "" ->
  is_finite a = true -> (0 <? a) = true ->
  Forall (fun c => id c = cid -> owner_wallet c <> w) (coupons s) ->
  Server.post_deposit s cid w a sig now = (s, not_found)
  /\ Server.post_pay s w cid a merchant memo now = (s, not_found)
  /\ Server.post_withdraw_onchain s cid w a recipient setup now
     = Respond s not_found.
Proof.
  intros Hw Hcid Hr Hm Hf Ha Hall.
  apply falsy_false in Hw, Hcid, Hr, Hm.
  pose proof (lookup_foreign _ _ _ Hw Hall) as Hnone.
  unfold Server.post_deposit, Server.post_pay, Server.post_withdraw_onchain.
  rewrite Hw, Hcid, Hr, Hm, (parseAmountSol_finite _ Hf Ha), Hnone. auto.
Qed.

Lemma foreign_coupon_is_not_found_witness :
  Server.post_pay after_session "W2" "CPN-A1B2-C3D4" 1 "M1" None "t6"
  = (after_session, not_found).
Proof.
  apply (foreign_coupon_is_not_found
           after_session "CPN-A1B2-C3D4" "W2" "R1" "M1" "t6" None None None 1).
  - discriminate.
  - discriminate.
  - discriminate.
  - discriminate.
  - reflexivity.
  - reflexivity.
  - repeat constructor. simpl. discriminate.
Defined.

(** X11. A request without a wallet, or whose amount is not a finite
    positive number (NaN, an infinity, zero, a negative number), is answered
    400 by every route that reads the field; the store is left as it was
    and no transfer is started. *)
Theorem malformed_request_is_rejected
        (pool : string) (s : Store) (req : Request) :
  wallet_of req = ""
  \/ (exists n, amount_of req = Some n
                /\ (is_finite n = false \/ (n <=? 0) = true)) ->
  exists msg, Server.handle pool s req = Respond s (bad_request msg).
Proof.
  intros [Hw | (n & Hn & Hbad)].
  - destruct req; simpl in Hw; subst; simpl; eexists; reflexivity.
  - apply parseAmountSol_none in Hbad.
    destruct req as [wallet | wallet lbl amt exp newId now | cid wallet amt sig now
                     | cid wallet amt recipient setup now
                     | wallet cid amt merchant memo now | cid wallet];
      simpl in Hn; try discriminate; injection Hn as ->; simpl.
    + unfold Server.post_coupons.
      destruct (falsy wallet); [eexists; reflexivity|].
      destruct (falsy lbl); [eexists; reflexivity|].
      rewrite Hbad. eexists; reflexivity.
    + unfold Server.post_deposit.
      destruct (falsy wallet); [eexists; reflexivity|].
      rewrite Hbad. eexists; reflexivity.
    + unfold Server.post_withdraw_onchain.
      destruct (falsy wallet); [eexists; reflexivity|].
      destruct (falsy recipient); [eexists; reflexivity|].
      rewrite Hbad. eexists; reflexivity.
    + unfold Server.post_pay.
      destruct (falsy wallet); [eexists; reflexivity|].
      destruct (falsy cid); [eexists; reflexivity|].
      destruct (falsy merchant); [eexists; reflexivity|].
      rewrite Hbad. eexists; reflexivity.
Qed.

Lemma malformed_request_is_rejected_witness :
  exists msg,
    Server.handle DEFAULT_POOL_ADDRESS after_session
      (PostWithdrawOnchain "CPN-A1B2-C3D4" "W1" infinity "R1" None "t6")
    = Respond after_session (bad_request msg).
Proof.
  apply (malformed_request_is_rejected DEFAULT_POOL_ADDRESS after_session
           (PostWithdrawOnchain "CPN-A1B2-C3D4" "W1" infinity "R1" None "t6")).
  right. exists infinity. split; [reflexivity|]. left. reflexivity.
Defined.

(** ** The transfer of [withdraw-onchain] *)

(** X12. [withdraw-onchain] sends a transfer exactly when every check has
    passed and nothing was thrown while the transfer was prepared: wallet
    and recipient non-empty, amount finite and positive, a coupon of that id
    and wallet found, amount not above its remaining balance ([null] read as
    0), and the engine key, the connection, the recipient key and the
    transaction built without error.  The transfer then goes to the
    recipient of the request, for [Math.round] of the binary64 product of
    the amount and 10^9 lamports.  When the preparation throws, the store is
    left as it was and the answer is 500. *)
Theorem transfer_starts_only_after_all_checks
        (s : Store) (cid w : string) (amt : float) (recipient : string)
        (setup : option string) (now : string) :
  (forall to lamports k,
     Server.post_withdraw_onchain s cid w amt recipient setup now
     = AwaitTransfer to lamports k ->
     w <> "" /\ recipient <> "" /\ setup = None /\ to = recipient
     /\ is_finite amt = true /\ (0 <? amt) = true
     /\ lamports = Math_round (amt * LAMPORTS_PER_SOL)
     /\ exists c, Db.getCouponById s cid (Some w) = Some c
                  /\ gt amt (Number_or_zero (remaining_amount_sol c)) = false)
  /\ (forall c,
        w <> "" -> recipient <> "" ->
        is_finite amt = true -> (0 <? amt) = true ->
        Db.getCouponById s cid (Some w) = Some c ->
        gt amt (Number_or_zero (remaining_amount_sol c)) = false ->
        (setup = None ->
         exists k, Server.post_withdraw_onchain s cid w amt recipient setup now
                   = AwaitTransfer recipient
                                   (Math_round (amt * LAMPORTS_PER_SOL)) k)
        /\ (forall message,
              setup = Some message ->
              Server.post_withdraw_onchain s cid w amt recipient setup now
              = Respond s {| status := 500;
                             body := BErrorDetails "on-chain withdraw failed"
                                                   message |})).
Proof.
  split.
  - intros to lamports k. unfold Server.post_withdraw_onchain.
    destruct (falsy w) eqn:Hw; [discriminate|].
    destruct (falsy recipient) eqn:Hr; [discriminate|].
    destruct (parseAmountSol amt) as [a|] eqn:Ha; [|discriminate].
    destruct (Db.getCouponById s cid (Some w)) as [c|] eqn:Hc; [|discriminate].
    destruct (gt a (Number_or_zero (remaining_amount_sol c))) eqn:Hgt;
      [discriminate|].
    destruct setup as [message|]; [discriminate|].
    intros H. injection H as <- <- _.
    apply falsy_false in Hw, Hr. apply parseAmountSol_pos in Ha as (-> & Hf & Ha).
    repeat split; auto. exists c. auto.
  - intros c Hw Hr Hf Ha Hc Hgt. apply falsy_false in Hw, Hr.
    unfold Server.post_withdraw_onchain.
    rewrite Hw, Hr, (parseAmountSol_finite _ Hf Ha), Hc, Hgt.
    split.
    + intros ->. eexists. reflexivity.
    + intros message ->. reflexivity.
Qed.

Lemma transfer_starts_only_after_all_checks_witness :
  exists k,
    Server.post_withdraw_onchain after_session "CPN-A1B2-C3D4" "W1"
      0.5 "R1" None "t6"
    = AwaitTransfer "R1" (Some 500000000%Z) k.
Proof.
  destruct (transfer_starts_only_after_all_checks after_session "CPN-A1B2-C3D4" "W1"
              0.5 "R1" None "t6") as [_ H].
  destruct (H lunch_coupon) as [H1 _].
  - discriminate.
  - discriminate.
  - reflexivity.
  - reflexivity.
  - vm_compute. reflexivity.
  - reflexivity.
  - apply H1. reflexivity.
Defined.

(** ** Lamports *)

Lemma is_finite_spec (x : float) :
  is_finite x = match Prim2SF x with
                | S754_zero _ | S754_finite _ _ _ => true
                | _ => false
                end.
Proof.
  unfold is_finite. rewrite is_nan_spec, is_infinity_spec.
  now destruct (Prim2SF x).
Qed.

(** [Math.round] of a quotient [n / d]: the integer within one half of it,
    the half going upwards. *)
Lemma round_half_up_bounds (n d : Z) :
  (0 < d)%Z ->
  (inject_Z ((2 * n + d) / (2 * d)) - Qmake n (Z.to_pos d) <= 1 # 2)%Q
  /\ (Qmake n (Z.to_pos d) - inject_Z ((2 * n + d) / (2 * d)) < 1 # 2)%Q.
Proof.
  intros Hd.
  pose proof (Z.div_mod (2 * n + d) (2 * d) ltac:(lia)) as Hdm.
  pose proof (Z.mod_pos_bound (2 * n + d) (2 * d) ltac:(lia)) as Hmod.
  set (r := ((2 * n + d) / (2 * d))%Z) in *.
  unfold Qle, Qlt, Qminus, Qplus, Qopp, inject_Z. simpl.
  rewrite !Pos2Z.inj_mul, !Z2Pos.id by lia. nia.
Qed.

(** X13. The lamports of a transfer are [Math.round] of the binary64
    product of the amount and 10^9: every finite product is rounded to the
    integer within one half of it, the half going upwards, so a product
    below one half, however positive the amount, is sent as 0 lamports; a
    product that overflowed is handed on as it is, not as an integer. *)
Theorem lamports_are_rounded_to_nearest (x : float) :
  (is_finite x = true <-> exists n, Math_round x = Some n)
  /\ (forall n, Math_round x = Some n ->
        (inject_Z n - exact x <= 1 # 2)%Q /\ (exact x - inject_Z n < 1 # 2)%Q)
  /\ ((0 < exact x)%Q -> (exact x < 1 # 2)%Q -> Math_round x = Some 0%Z).
Proof.
  assert (forall n, Math_round x = Some n ->
            (inject_Z n - exact x <= 1 # 2)%Q /\ (exact x - inject_Z n < 1 # 2)%Q)
    as Hbounds.
  { unfold Math_round, exact.
    destruct (Prim2SF x) as [s|s| |s m e]; try discriminate.
    - intros n H. injection H as <-.
      split; [unfold Qle; simpl; lia | unfold Qlt; simpl; lia].
    - intros n H. injection H as <-.
      destruct (0 <=? e)%Z eqn:He.
      + split.
        * unfold Qle, Qminus, Qplus, Qopp, inject_Z. simpl. lia.
        * unfold Qlt, Qminus, Qplus, Qopp, inject_Z. simpl. lia.
      + apply Z.leb_gt in He. apply round_half_up_bounds.
        apply Z.pow_pos_nonneg; lia. }
  split; [|split; [exact Hbounds|]].
  - rewrite is_finite_spec. unfold Math_round.
    destruct (Prim2SF x) as [s|s| |s m e]; split; intros H;
      try discriminate; try reflexivity; try (eexists; reflexivity);
      destruct H as [n H]; discriminate.
  - intros Hpos Hsmall.
    destruct (Math_round x) as [n|] eqn:E.
    + destruct (Hbounds n eq_refl) as [H1 H2]. f_equal.
      revert Hpos Hsmall H1 H2.
      unfold Qle, Qlt, Qminus, Qplus, Qopp, inject_Z.
      destruct (exact x) as [p q]. simpl. nia.
    + exfalso. revert E Hpos. unfold Math_round, exact.
      destruct (Prim2SF x); try discriminate; intros _ H; inversion H.
Qed.

Lemma lamports_are_rounded_to_nearest_witness :
  Math_round (0.5 * LAMPORTS_PER_SOL) = Some 500000000%Z
  /\ Math_round (0x1p-31 * LAMPORTS_PER_SOL) = Some 0%Z.
Proof.
  split; [reflexivity|].
  apply (lamports_are_rounded_to_nearest (0x1p-31 * LAMPORTS_PER_SOL)).
  - reflexivity.
  - reflexivity.
Defined.

(** ** Requests served while a transfer is pending *)

Lemma findIndex_none {A : Type} (p : A -> bool) (l : list A) :
  Forall (fun x => p x = false) l -> findIndex p l = None.
Proof.
  induction 1 as [|x r Hx _ IH]; simpl; [reflexivity|]. now rewrite Hx, IH.
Qed.

Lemma find_none_all {A : Type} (p : A -> bool) (l : list A) :
  find p l = None -> Forall (fun x => p x = false) l.
Proof.
  induction l as [|x r IH]; simpl; [constructor|].
  destruct (p x) eqn:Hx; [discriminate|]. auto.
Qed.

(** [updateCoupon] either finds no coupon of the key and writes nothing, or
    rewrites the first one. *)
Lemma updateCoupon_cases (s : Store) (cid w : string) (f : Coupon -> Coupon) :
  (Forall (fun x => key_is cid w x = false) (coupons s)
   /\ Db.updateCoupon s cid w f = (s, None))
  \/ (exists l1 l2 c,
        coupons s = l1 ++ c :: l2
        /\ key_is cid w c = true
        /\ Forall (fun x => key_is cid w x = false) l1
        /\ Db.updateCoupon s cid w f
           = ({| coupons := l1 ++ f c :: l2; events := events s |}, Some (f c))).
Proof.
  destruct (find (key_is cid w) (coupons s)) as [c|] eqn:E.
  - right. destruct (find_split _ _ _ E) as (l1 & l2 & Hs & Hc & Hl1).
    exists l1, l2, c. repeat split; auto. now apply updateCoupon_first.
  - left. apply find_none_all in E. split; [exact E|].
    unfold Db.updateCoupon, Db.loadCoupons.
    change (fun c0 : Coupon => (id c0 =? cid)%string && (owner_wallet c0 =? w)%string)
      with (key_is cid w).
    now rewrite (findIndex_none _ _ E).
Qed.

(** The continuation handed to the transfer, as the handler builds it. *)
Lemma pending_withdraw_shape (s : Store) (cid w : string) (amt : float)
      (recipient : string) (setup : option string) (now to : string)
      (lamports : option Z)
      (k : TransferResult -> Store -> Store * Response) :
  Server.post_withdraw_onchain s cid w amt recipient setup now
  = AwaitTransfer to lamports k ->
  exists c,
    falsy w = false /\ setup = None
    /\ is_finite amt = true /\ (0 <? amt) = true
    /\ Db.getCouponById s cid (Some w) = Some c
    /\ gt amt (Number_or_zero (remaining_amount_sol c)) = false
    /\ (forall msg st, fst (k (Failed msg) st) = st)
    /\ (forall sig st,
          k (Confirmed sig) st
          = (let (s1, updated) :=
               Db.updateCoupon st cid w (fun x =>
                 set_remaining x
                   (json_number (Number_or_zero (remaining_amount_sol c) - amt))) in
             let (s2, event) := Db.addEvent s1
               {| coupon_id := cid; ev_owner_wallet := w; type := withdraw;
                  amount_sol := amt; to_address := recipient; note := None;
                  tx_sig := Some sig; ev_created_at := now |} in
             (s2, ok (BWithdrawn updated event sig)))).
Proof.
  unfold Server.post_withdraw_onchain.
  destruct (falsy w) eqn:Hw; [discriminate|].
  destruct (falsy recipient) eqn:Hr; [discriminate|].
  destruct (parseAmountSol amt) as [a|] eqn:Ha; [|discriminate].
  destruct (Db.getCouponById s cid (Some w)) as [c|] eqn:Hc; [|discriminate].
  destruct (gt a (Number_or_zero (remaining_amount_sol c))) eqn:Hgt;
    [discriminate|].
  destruct setup as [message|]; [discriminate|].
  intros H. injection H as _ _ <-.
  apply parseAmountSol_pos in Ha as (-> & Hf & Ha).
  exists c. repeat split; auto.
Qed.

(** X14. When the transfer of a [withdraw-onchain] is confirmed, the balance
    written is the balance read before the transfer ([null] read as 0)
    minus the amount, in binary64, whatever the coupon's balance has become
    in the meantime: a debit or credit served while the transfer was
    pending keeps its event but its effect on the balance is overwritten. *)
Theorem confirmed_withdraw_writes_its_snapshot
        (s st : Store) (cid w : string) (amt : float)
        (recipient : string) (setup : option string) (now to sig : string)
        (lamports : option Z)
        (k : TransferResult -> Store -> Store * Response) (c c_now : Coupon) :
  Server.post_withdraw_onchain s cid w amt recipient setup now
  = AwaitTransfer to lamports k ->
  Db.getCouponById s cid (Some w) = Some c ->
  Db.getCouponById st cid (Some w) = Some c_now ->
  exists st' c' e,
    k (Confirmed sig) st = (st', ok (BWithdrawn (Some c') e sig))
    /\ Db.getCouponById st' cid (Some w) = Some c'
    /\ c' = set_remaining c_now
              (json_number (Number_or_zero (remaining_amount_sol c) - amt))
    /\ events st' = events st ++ [e]
    /\ type e = withdraw /\ amount_sol e = amt.
Proof.
  intros Hk Hc Hnow.
  destruct (pending_withdraw_shape _ _ _ _ _ _ _ _ _ _ Hk)
    as (c0 & Hw & _ & _ & _ & Hc0 & _ & _ & Hconf).
  assert (c0 = c) as -> by congruence.
  destruct (lookup_split _ _ _ _ Hw Hnow) as (l1 & l2 & Hs & Hid & Hown & Hl1).
  rewrite Hconf.
  rewrite (updateCoupon_first _ _ _ _ l1 l2 c_now Hs); auto; [|now apply key_is_eq].
  store_norm. eexists _, _, _. split; [reflexivity|].
  split; [now apply lookup_after_move|].
  simpl. repeat split; auto.
Qed.

Lemma confirmed_withdraw_writes_its_snapshot_witness :
  exists to lamports k st' c' e,
    Server.post_withdraw_onchain after_session "CPN-A1B2-C3D4" "W1"
      1 "R1" None "t7"
    = AwaitTransfer to lamports k
    /\ k (Confirmed "SIG9")
         (fst (Server.post_deposit after_session "CPN-A1B2-C3D4" "W1" 2
                                   None "t6"))
       = (st', ok (BWithdrawn (Some c') e "SIG9"))
    /\ remaining_amount_sol c' = Some 0.5
    /\ List.length (events st') = 6%nat.
Proof.
  destruct (Server.post_withdraw_onchain after_session "CPN-A1B2-C3D4" "W1"
              1 "R1" None "t7") as [s0 r0 | to lamports k] eqn:E.
  - exfalso. vm_compute in E. discriminate E.
  - destruct (confirmed_withdraw_writes_its_snapshot
                after_session
                (fst (Server.post_deposit after_session "CPN-A1B2-C3D4" "W1" 2
                                          None "t6"))
                "CPN-A1B2-C3D4" "W1" 1 "R1" None "t7" to "SIG9" lamports k
                lunch_coupon (set_remaining lunch_coupon (Some 3.5)))
      as (st' & c' & e & Hk & _ & Hrem & Hev & _ & _).
    + exact E.
    + vm_compute. reflexivity.
    + vm_compute. reflexivity.
    + exists to, lamports, k, st', c', e.
      split; [reflexivity|]. split; [exact Hk|].
      split; [rewrite Hrem; reflexivity|]. rewrite Hev. reflexivity.
Defined.

Lemma Forall_drop_index {A : Type} (P : A -> Prop) (i : nat) (l : list A) :
  Forall P l -> Forall P (drop_index i l).
Proof.
  intros H. revert i. induction H as [|x r Hx Hr IH]; intros i.
  - destruct i; constructor.
  - destruct i; simpl; [assumption|]. constructor; auto.
Qed.

Lemma handle_respond_is_serve (pool : string) (s s' : Store) (req : Request)
      (r : Response) (chain : TransferResult) :
  Server.handle pool s req = Respond s' r ->
  Server.serve pool s req chain = (s', r).
Proof. unfold Server.serve. now intros ->. Qed.

(** A continuation handed to the transfer never leaves a negative balance,
    on whatever store it resumes. *)
Lemma pending_keeps_nonneg (pool : string) (s : Store) (req : Request)
      (to : string) (lamports : option Z)
      (k : TransferResult -> Store -> Store * Response) :
  Server.handle pool s req = AwaitTransfer to lamports k ->
  forall outcome st,
    Forall nonneg (coupons st) -> Forall nonneg (coupons (fst (k outcome st))).
Proof.
  intros H outcome st Hst.
  destruct req as [? | ? ? ? ? ? ? | ? ? ? ? ? | cid wallet amt recipient setup now
                   | ? ? ? ? ? ? | ? ?];
    simpl in H; try discriminate.
  destruct (pending_withdraw_shape _ _ _ _ _ _ _ _ _ _ H)
    as (c & _ & _ & Hf & Ha & _ & Hgt & Hfail & Hconf).
  destruct outcome as [sig|msg]; [|now rewrite Hfail].
  rewrite Hconf.
  destruct (updateCoupon_cases st cid wallet
              (fun x => set_remaining x
                 (json_number (Number_or_zero (remaining_amount_sol c) - amt))))
    as [[_ ->] | (l1 & l2 & c0 & Hs & _ & _ & ->)]; simpl; [exact Hst|].
  rewrite Hs in Hst. revert Hst. apply Forall_middle.
  intros _. unfold nonneg. simpl.
  apply debit_nonneg; auto using Number_or_zero_not_nan.
Qed.

Lemma act_keeps_nonneg (pool : string) (sys : Sys) (a : Action) :
  Forall nonneg (coupons (store sys))
  /\ Forall (fun k => forall outcome st,
               Forall nonneg (coupons st) ->
               Forall nonneg (coupons (fst (k outcome st)))) (pending sys) ->
  Forall nonneg (coupons (store (act pool sys a)))
  /\ Forall (fun k => forall outcome st,
               Forall nonneg (coupons st) ->
               Forall nonneg (coupons (fst (k outcome st))))
            (pending (act pool sys a)).
Proof.
  intros [Hst Hpend]. destruct a as [req | i outcome]; simpl.
  - destruct (Server.handle pool (store sys) req) as [s' r | to lamports k] eqn:E;
      simpl.
    + split; [|exact Hpend].
      pose proof (handle_respond_is_serve _ _ _ _ _ (Failed "") E) as Hserve.
      pose proof (serve_effect pool (store sys) req (Failed "")) as Heff.
      rewrite Hserve in Heff. simpl in Heff.
      exact (effect_nonneg _ _ _ Heff Hst).
    + split; [exact Hst|]. apply Forall_app. split; [exact Hpend|].
      constructor; [|constructor]. exact (pending_keeps_nonneg _ _ _ _ _ _ E).
  - destruct (nth_error (pending sys) i) as [k|] eqn:E; simpl.
    + split; [|now apply Forall_drop_index].
      rewrite Forall_forall in Hpend.
      apply (Hpend k (nth_error_In _ _ E)). exact Hst.
    + now split.
Qed.

(** X15. Balances stay non-negative under every interleaving: whatever
    requests arrive while transfers are pending and in whatever order the
    transfers settle, confirmed or failed, no stored coupon ever has a
    negative [remaining_amount_sol]. *)
Theorem remaining_never_negative_when_requests_overlap
        (pool : string) (actions : list Action) :
  Forall nonneg (coupons (store (play pool boot actions))).
Proof.
  unfold play.
  assert (forall sys,
            Forall nonneg (coupons (store sys))
            /\ Forall (fun k => forall outcome st,
                         Forall nonneg (coupons st) ->
                         Forall nonneg (coupons (fst (k outcome st)))) (pending sys) ->
            Forall nonneg (coupons (store (fold_left (act pool) actions sys)))) as H.
  { induction actions as [|a rest IH]; intros sys Hsys; simpl.
    - apply Hsys.
    - apply IH. now apply act_keeps_nonneg. }
  apply H. split; constructor.
Qed.

(** Serving requests one after the other is the interleaving in which
    every transfer settles before the next request arrives: it ends in the
    same store, with no transfer left pending. *)
Lemma serial_service_is_an_interleaving
        (pool : string) (s : Store) (calls : list (Request * TransferResult)) :
  play pool {| store := s; pending := [] |} (serially calls)
  = {| store := Server.run pool s calls; pending := [] |}.
Proof.
  revert s. induction calls as [|[req chain] rest IH]; intros s; [reflexivity|].
  unfold play in *. simpl. rewrite <- IH. f_equal.
  unfold Server.serve.
  destruct (Server.handle pool s req) as [s' r | to lamports k]; reflexivity.
Qed.

(** ** The store functions, composed *)

Lemma find_app_found {A : Type} (p : A -> bool) (l1 l2 : list A) (x : A) :
  find p l1 = Some x -> find p (l1 ++ l2) = Some x.
Proof.
  induction l1 as [|y r IH]; simpl; [discriminate|].
  destruct (p y); auto.
Qed.

Lemma find_app_missing {A : Type} (p : A -> bool) (l1 l2 : list A) :
  find p l1 = None -> find p (l1 ++ l2) = find p l2.
Proof.
  induction l1 as [|y r IH]; simpl; [reflexivity|].
  destruct (p y); [discriminate | auto].
Qed.

(** X16. [createCoupon] appends: the owner's list gains the coupon at its
    end and the lists of other wallets and the events are untouched; every
    lookup that found a coupon before finds the same one after, so a stored
    coupon with the same id and owner hides the new one; and when the store
    had none, looking the new coupon up by id and owner returns it. *)
Theorem createCoupon_then_lookup (s : Store) (c : Coupon) :
  snd (Db.createCoupon s c) = c
  /\ events (fst (Db.createCoupon s c)) = events s
  /\ Db.getCouponsByOwner (fst (Db.createCoupon s c)) (owner_wallet c)
     = Db.getCouponsByOwner s (owner_wallet c) ++ [c]
  /\ (forall w, w <> owner_wallet c ->
        Db.getCouponsByOwner (fst (Db.createCoupon s c)) w
        = Db.getCouponsByOwner s w)
  /\ (forall cid w old,
        Db.getCouponById s cid w = Some old ->
        Db.getCouponById (fst (Db.createCoupon s c)) cid w = Some old)
  /\ (forall w,
        Db.getCouponById s (id c) w = None ->
        w = None \/ w = Some "" \/ w = Some (owner_wallet c) ->
        Db.getCouponById (fst (Db.createCoupon s c)) (id c) w = Some c).
Proof.
  unfold Db.createCoupon, Db.getCouponsByOwner, Db.getCouponById, Db.saveCoupons,
    Db.loadCoupons. simpl.
  split; [reflexivity|]. split; [reflexivity|].
  split.
  { rewrite filter_app. simpl. now rewrite String.eqb_refl. }
  split.
  { intros w Hw. apply filter_snoc_out. apply String.eqb_neq. congruence. }
  split.
  { intros cid w old. apply find_app_found. }
  intros w Hnone Hw. rewrite (find_app_missing _ _ _ Hnone). simpl.
  rewrite String.eqb_refl. simpl.
  destruct Hw as [-> | [-> | ->]]; simpl; try reflexivity.
  now rewrite String.eqb_refl, orb_true_r.
Qed.

Lemma createCoupon_then_lookup_witness :
  Db.getCouponById
    (fst (Db.createCoupon after_session
            (mkCoupon "CPN-0000-0001" "Tea" "W2" 1 (Some 1) None DEFAULT_POOL_ADDRESS "t6")))
    "CPN-0000-0001" (Some "W2")
  = Some (mkCoupon "CPN-0000-0001" "Tea" "W2" 1 (Some 1) None DEFAULT_POOL_ADDRESS "t6").
Proof.
  apply (createCoupon_then_lookup after_session
           (mkCoupon "CPN-0000-0001" "Tea" "W2" 1 (Some 1) None DEFAULT_POOL_ADDRESS "t6")).
  - reflexivity.
  - right. right. reflexivity.
Defined.

Lemma length_middle {A : Type} (l1 l2 : list A) (x y : A) :
  List.length (l1 ++ x :: l2) = List.length (l1 ++ y :: l2).
Proof. now rewrite !length_app. Qed.

(** X17. [updateCoupon] returns [null] exactly when no stored coupon has
    both the id and the owner (the owner is always compared, also when it is
    empty), and then writes nothing; otherwise it applies the mutator to the
    first such coupon only, in place, and returns the result.  It never
    changes the number of coupons or the events. *)
Theorem updateCoupon_rewrites_the_first_match
        (s : Store) (cid w : string) (f : Coupon -> Coupon) :
  (snd (Db.updateCoupon s cid w f) = None
   <-> Forall (fun c => id c = cid -> owner_wallet c <> w) (coupons s))
  /\ (snd (Db.updateCoupon s cid w f) = None -> fst (Db.updateCoupon s cid w f) = s)
  /\ events (fst (Db.updateCoupon s cid w f)) = events s
  /\ List.length (coupons (fst (Db.updateCoupon s cid w f)))
     = List.length (coupons s)
  /\ (forall c', snd (Db.updateCoupon s cid w f) = Some c' ->
        exists l1 c l2,
          coupons s = l1 ++ c :: l2 /\ c' = f c
          /\ id c = cid /\ owner_wallet c = w
          /\ Forall (fun x => id x = cid -> owner_wallet x <> w) l1
          /\ coupons (fst (Db.updateCoupon s cid w f)) = l1 ++ c' :: l2).
Proof.
  assert (forall l, Forall (fun x => key_is cid w x = false) l
                    <-> Forall (fun c => id c = cid -> owner_wallet c <> w) l) as Hkey.
  { intros l. split; apply Forall_impl; intros c Hc.
    - intros Hid Hown. rewrite (proj2 (key_is_eq cid w c)) in Hc; [discriminate | auto].
    - destruct (key_is cid w c) eqn:E; [|reflexivity].
      apply key_is_eq in E as [E1 E2]. now destruct (Hc E1). }
  destruct (updateCoupon_cases s cid w f)
    as [[Hall ->] | (l1 & l2 & c & Hs & Hc & Hl1 & ->)]; simpl.
  - split; [split; [intros _; now apply Hkey | reflexivity]|].
    repeat split; auto. discriminate.
  - split.
    { split; [discriminate|]. intros Hall. exfalso.
      apply Hkey in Hall. rewrite Hs in Hall.
      apply Forall_app in Hall as [_ Hall]. inversion Hall; subst. congruence. }
    split; [discriminate|]. split; [reflexivity|].
    split; [rewrite Hs; apply length_middle|].
    intros c' Hc'. injection Hc' as <-.
    apply key_is_eq in Hc as [Hid Hown].
    exists l1, c, l2. repeat split; auto. now apply Hkey.
Qed.

(** X18. [addEvent] appends: the events of the coupon and owner named in the
    event gain it at their end, the events of every other coupon or owner
    and the coupons are untouched. *)
Theorem addEvent_then_list (s : Store) (e : Event) :
  snd (Db.addEvent s e) = e
  /\ coupons (fst (Db.addEvent s e)) = coupons s
  /\ Db.getEventsForCoupon (fst (Db.addEvent s e)) (coupon_id e) (ev_owner_wallet e)
     = Db.getEventsForCoupon s (coupon_id e) (ev_owner_wallet e) ++ [e]
  /\ (forall cid w,
        cid <> coupon_id e \/ w <> ev_owner_wallet e ->
        Db.getEventsForCoupon (fst (Db.addEvent s e)) cid w
        = Db.getEventsForCoupon s cid w).
Proof.
  unfold Db.addEvent, Db.getEventsForCoupon, Db.saveEvents, Db.loadEvents. simpl.
  split; [reflexivity|]. split; [reflexivity|]. split.
  - rewrite filter_app. simpl. now rewrite !String.eqb_refl.
  - intros cid w Hne. apply filter_snoc_out.
    destruct Hne as [Hne | Hne].
    + assert (String.eqb (coupon_id e) cid = false) as ->; [|reflexivity].
      apply String.eqb_neq. congruence.
    + assert (String.eqb (ev_owner_wallet e) w = false) as ->; [|apply andb_false_r].
      apply String.eqb_neq. congruence.
Qed.

(** X19. After a [POST /coupons] that succeeds with an id under which the
    wallet has neither a coupon nor an event, [GET /coupons] for that wallet
    shows what it showed before, followed by the new coupon with exactly one
    event, its [create] event. *)
Theorem created_coupon_is_listed_last
        (pool : string) (s : Store) (w lbl newId now : string)
        (expiry : option string) (a : float) :
  w <> "" -> lbl <> "" -> is_finite a = true -> (0 <? a) = true ->
  Db.getCouponById s newId (Some w) = None ->
  Db.getEventsForCoupon s newId w = [] ->
  exists s' c e,
    Server.post_coupons pool s w lbl a expiry newId now
    = (s', {| status := 201; body := BCreated c |})
    /\ type e = create /\ amount_sol e = a
    /\ entries_in (snd (Server.get_coupons pool s' w))
       = entries_in (snd (Server.get_coupons pool s w)) ++ [(c, [e])].
Proof.
  intros Hw Hl Hf Ha Hnone Hnoev. apply falsy_false in Hw, Hl.
  unfold Server.post_coupons, Server.get_coupons.
  rewrite Hw, Hl, (parseAmountSol_finite _ Hf Ha). store_norm.
  eexists _, _,
    {| coupon_id := newId; ev_owner_wallet := w; type := create; amount_sol := a;
       to_address := w; note := None; tx_sig := None; ev_created_at := now |}.
  split; [reflexivity|].
  split; [reflexivity|]. split; [reflexivity|].
  unfold entries_in, Db.getCouponsByOwner, Db.loadCoupons. simpl.
  rewrite filter_app, map_app. simpl. rewrite String.eqb_refl. simpl.
  f_equal.
  - apply map_ext_in. intros c Hc. apply filter_In in Hc as [Hc Hown].
    apply String.eqb_eq in Hown. f_equal.
    unfold Db.getEventsForCoupon, Db.loadEvents. simpl.
    apply filter_snoc_out. simpl.
    assert (String.eqb newId (id c) = false) as ->; [|reflexivity].
    apply String.eqb_neq. intros Heq.
    rewrite (getCouponById_owner _ _ _ Hw) in Hnone.
    apply find_none_all in Hnone. rewrite Forall_forall in Hnone.
    specialize (Hnone c Hc).
    rewrite (proj2 (key_is_eq newId w c)) in Hnone; [discriminate | auto].
  - f_equal. f_equal.
    unfold Db.getEventsForCoupon, Db.loadEvents in *. simpl.
    rewrite filter_app, Hnoev. simpl. now rewrite !String.eqb_refl.
Qed.

Lemma created_coupon_is_listed_last_witness :
  exists s' c e,
    Server.post_coupons DEFAULT_POOL_ADDRESS after_session "W1" "Dinner"
                        4 None "CPN-0000-0002" "t6"
    = (s', {| status := 201; body := BCreated c |})
    /\ type e = create /\ amount_sol e = 4
    /\ entries_in (snd (Server.get_coupons DEFAULT_POOL_ADDRESS s' "W1"))
       = entries_in (snd (Server.get_coupons DEFAULT_POOL_ADDRESS after_session "W1"))
         ++ [(c, [e])].
Proof.
  apply (created_coupon_is_listed_last DEFAULT_POOL_ADDRESS after_session
           "W1" "Dinner" "CPN-0000-0002" "t6" None 4).
  - discriminate.
  - discriminate.
  - reflexivity.
  - reflexivity.
  - vm_compute. reflexivity.
  - vm_compute. reflexivity.
Defined.

(** ** Coupon identifiers *)

Lemma hex_upper_reads_back (b : Byte.byte) :
  exists hi lo, hex_upper b = String hi (String lo "")
                /\ byte_of_digits hi lo = Some b.
Proof.
  eexists _, _. split; [reflexivity|]. destruct b; reflexivity.
Qed.

Lemma hex_upper_inj (b1 b2 : Byte.byte) :
  hex_upper b1 = hex_upper b2 -> b1 = b2.
Proof.
  intros H.
  destruct (hex_upper_reads_back b1) as (h1 & l1 & E1 & R1).
  destruct (hex_upper_reads_back b2) as (h2 & l2 & E2 & R2).
  rewrite E1, E2 in H. injection H as -> ->. congruence.
Qed.

(** X20. A coupon id is the 13 characters CPN-, four upper-case hexadecimal
    digits, a dash and four more; it is never empty; and it determines the
    four random bytes it was made from, so two draws give the same id only
    when they give the same bytes. *)
Theorem generateCouponId_is_injective (part1 part2 : Byte.byte * Byte.byte) :
  String.length (generateCouponId part1 part2) = 13%nat
  /\ generateCouponId part1 part2 <> ""
  /\ substring 0 4 (generateCouponId part1 part2) = "CPN-"
  /\ forall other1 other2,
       generateCouponId part1 part2 = generateCouponId other1 other2 ->
       part1 = other1 /\ part2 = other2.
Proof.
  destruct part1 as [a b], part2 as [c d].
  split; [reflexivity|]. split; [discriminate|]. split; [reflexivity|].
  intros [a' b'] [c' d'] H.
  unfold generateCouponId in H. simpl in H.
  injection H as H1 H2 H3 H4 H5 H6 H7 H8.
  assert (a = a') as -> by (apply hex_upper_inj; unfold hex_upper; congruence).
  assert (b = b') as -> by (apply hex_upper_inj; unfold hex_upper; congruence).
  assert (c = c') as -> by (apply hex_upper_inj; unfold hex_upper; congruence).
  assert (d = d') as -> by (apply hex_upper_inj; unfold hex_upper; congruence).
  now split.
Qed.

(** ** The history of a coupon *)

(** X21. After every sequence of requests served from the empty store, in
    which no [POST /coupons] drew an id its wallet already had, the events
    of every coupon begin with its create event, which carries the coupon's
    initial amount, and contain no other create event. *)
Theorem every_history_starts_with_create
        (pool : string) (calls : list (Request * TransferResult)) :
  ids_fresh pool empty_store calls = true ->
  Forall (fun c => exists e0 rest,
            events_of (Server.run pool empty_store calls) c = e0 :: rest
            /\ type e0 = create
            /\ amount_sol e0 = initial_amount_sol c
            /\ Forall (fun e => type e <> create) rest)
         (coupons (Server.run pool empty_store calls)).
Proof.
  intros Hfresh. apply Forall_forall. intros c Hc.
  pose proof (run_inv pool calls empty_store Hfresh Inv_empty) as [_ _ _ Hhist].
  destruct (Hhist c Hc) as (_ & _ & e0 & rest & H).
  now exists e0, rest.
Qed.

Lemma every_history_starts_with_create_witness :
  ids_fresh DEFAULT_POOL_ADDRESS empty_store session = true
  /\ Forall (fun c => exists e0 rest,
               events_of after_session c = e0 :: rest
               /\ type e0 = create
               /\ amount_sol e0 = initial_amount_sol c
               /\ Forall (fun e => type e <> create) rest)
            (coupons after_session).
Proof.
  split.
  - reflexivity.
  - apply (every_history_starts_with_create DEFAULT_POOL_ADDRESS session).
    reflexivity.
Defined.

(** ** Overflow *)

(** A store with one coupon holding 2^1023. *)
Lemma vault_lookup :
  Db.getCouponById
    (Server.run DEFAULT_POOL_ADDRESS empty_store
       [(PostCoupons "W1" "Vault" 0x1p1023 None "CPN-0000-0001" "t0", Failed "")])
    "CPN-0000-0001" (Some "W1")
  = Some (mkCoupon "CPN-0000-0001" "Vault" "W1" 0x1p1023 (Some 0x1p1023) None
                   DEFAULT_POOL_ADDRESS "t0").
Proof. vm_compute. reflexivity. Qed.

(** X22. A deposit whose binary64 sum with the balance overflows is
    accepted and recorded, and the balance is written as [null]: from then
    on it reads as 0, and every pay with a finite positive amount is
    refused as insufficient. *)
Theorem overflowing_deposit_voids_the_balance
        (s : Store) (cid w now : string) (sig : option string)
        (a : float) (c : Coupon) :
  w <> "" -> cid <> "" -> is_finite a = true -> (0 <? a) = true ->
  Db.getCouponById s cid (Some w) = Some c ->
  is_finite (Number_or_zero (remaining_amount_sol c) + a) = false ->
  exists s' c' e,
    Server.post_deposit s cid w a sig now = (s', ok (BCouponEvent (Some c') e))
    /\ Db.getCouponById s' cid (Some w) = Some c'
    /\ remaining_amount_sol c' = None
    /\ events s' = events s ++ [e]
    /\ type e = deposit /\ amount_sol e = a
    /\ forall b merchant memo now',
         merchant <> "" -> is_finite b = true -> (0 <? b) = true ->
         Server.post_pay s' w cid b merchant memo now'
         = (s', bad_request "insufficient coupon balance").
Proof.
  intros Hw Hcid Hf Ha Hc Hover. apply falsy_false in Hw, Hcid.
  unfold Server.post_deposit.
  rewrite Hw, (parseAmountSol_finite _ Hf Ha), Hc.
  destruct (lookup_split _ _ _ _ Hw Hc) as (l1 & l2 & Hs & Hid & Hown & Hl1).
  rewrite (updateCoupon_first _ _ _ _ l1 l2 c Hs); auto; [|now apply key_is_eq].
  store_norm. unfold json_number. rewrite Hover.
  eexists _, _, _. split; [reflexivity|].
  pose proof (lookup_after_move s cid w l1 l2 c None
                {| coupon_id := cid; ev_owner_wallet := w; type := deposit;
                   amount_sol := a; to_address := w; note := None;
                   tx_sig := or_null sig; ev_created_at := now |}
                Hw Hid Hown Hl1) as Hfound.
  split; [exact Hfound|]. simpl. repeat split; auto.
  intros b merchant memo now' Hm Hfb Hb. apply falsy_false in Hm.
  unfold Server.post_pay.
  rewrite Hw, Hcid, Hm, (parseAmountSol_finite _ Hfb Hb), Hfound.
  cbv beta iota zeta. cbn [remaining_amount_sol set_remaining].
  rewrite (gt_balance b None Hb); [reflexivity | discriminate].
Qed.

Lemma overflowing_deposit_voids_the_balance_witness :
  let s := Server.run DEFAULT_POOL_ADDRESS empty_store
             [(PostCoupons "W1" "Vault" 0x1p1023 None "CPN-0000-0001" "t0",
               Failed "")] in
  exists s' c' e,
    Server.post_deposit s "CPN-0000-0001" "W1" 0x1p1023 None "t1"
    = (s', ok (BCouponEvent (Some c') e))
    /\ remaining_amount_sol c' = None
    /\ Server.post_pay s' "W1" "CPN-0000-0001" 1 "M1" None "t2"
       = (s', bad_request "insufficient coupon balance").
Proof.
  intros s.
  destruct (overflowing_deposit_voids_the_balance
              s "CPN-0000-0001" "W1" "t1" None 0x1p1023
              (mkCoupon "CPN-0000-0001" "Vault" "W1" 0x1p1023 (Some 0x1p1023) None
                        DEFAULT_POOL_ADDRESS "t0"))
    as (s' & c' & e & H1 & _ & H2 & _ & _ & _ & H3).
  - discriminate.
  - discriminate.
  - reflexivity.
  - reflexivity.
  - exact vault_lookup.
  - reflexivity.
  - exists s', c', e. split; [exact H1|]. split; [exact H2|].
    apply H3; [discriminate | reflexivity | reflexivity].
Defined.
